(** * Track recommender: genre/artist scoring and multi-seed aggregation

    Shallow embedding of the helper functions of [src/app.py] (the same
    functions are repeated verbatim in [src/recommend_api.py]):

    - [clean_string]                       (app.py, lines 18-19)
    - [recommend_based_on_genre_artist]    (app.py, lines 21-39)
    - [recommend_from_favorites]           (app.py, lines 41-46)
    - [recommend_from_watch_history]       (app.py, lines 48-49)

    A pandas DataFrame is modelled as the list of its rows, in row order.
    The two library calls whose result pandas does not pin down by the data
    alone are kept as parameters of the development:

    - [argsort_desc], the positions computed by
      [sort_values(by='similarity', ascending=False)]; pandas' default
      [kind='quicksort'] promises a descending rearrangement and nothing
      about the order of equal keys;
    - [permutation], the shuffle [RandomState(42).permutation(m)] behind
      [DataFrame.sample(n, random_state=42)].

    Exceptions are explicit: every function that can raise returns a
    [result]. Similarities are IEEE binary64 numbers, as in the source. *)

From Stdlib Require Import String Ascii.
From Stdlib Require Import ZArith List Bool Lia.
From Stdlib Require Import Permutation Sorted.
From Stdlib Require Import Floats.
Import ListNotations.

#[local] Set Warnings "-inexact-float".
#[local] Open Scope Z_scope.

(** ** Exceptions *)

Inductive exn : Type :=
| ValueError   (* sample: larger sample than population *)
| KeyError.    (* sort_values: no such column *)

Inductive result (A : Type) : Type :=
| Ok (a : A)
| Raise (e : exn).

Arguments Ok {A} a.
Arguments Raise {A} e.

Definition bind {A B : Type} (r : result A) (k : A -> result B) : result B :=
  match r with
  | Ok a => k a
  | Raise e => Raise e
  end.

Notation "x <- r ;; k" := (bind r (fun x => k))
  (at level 61, r at next level, right associativity).

(** ** Strings: [str.strip] and [str.lower]

    Genre and artist cells are text. Characters are bytes here; the
    whitespace test and the case mapping are those of Python on the ASCII
    range, and bytes from 128 on are left alone. So [Str.strip],
    [Str.lower] and [clean_string] are the code's on ASCII text
    ([ascii_text] below) only: on other text [str.strip()] also removes
    Unicode whitespace such as U+00A0, and [str.lower()] also lower-cases
    letters such as U+00C9. Statements about what cleaning does to a text
    are made for ASCII text. *)

Module Str.

(** [str.isspace] on code points below 128: TAB, LF, VT, FF, CR, the four
    separators FS GS RS US, and the space. *)
Definition is_space (c : ascii) : bool :=
  let n := N_of_ascii c in
  ((9 <=? n) && (n <=? 13) || (28 <=? n) && (n <=? 32))%N.

Definition to_lower (c : ascii) : ascii :=
  let n := N_of_ascii c in
  if ((65 <=? n) && (n <=? 90))%N then ascii_of_N (n + 32) else c.

Fixpoint lstrip (s : string) : string :=
  match s with
  | EmptyString => EmptyString
  | String c r => if is_space c then lstrip r else s
  end.

Fixpoint rstrip (s : string) : string :=
  match s with
  | EmptyString => EmptyString
  | String c r =>
      match rstrip r with
      | EmptyString => if is_space c then EmptyString else String c EmptyString
      | r' => String c r'
      end
  end.

Definition strip (s : string) : string := rstrip (lstrip s).

Fixpoint lower (s : string) : string :=
  match s with
  | EmptyString => EmptyString
  | String c r => String (to_lower c) (lower r)
  end.

End Str.

(** [clean_string(val)]: a cell is [None] when [pd.notna] rejects it. *)
Definition clean_string (val : option string) : string :=
  match val with
  | Some s => Str.lower (Str.strip s)
  | None => EmptyString
  end.

(** ** Rows and frames *)

(** A row of [track_df]. *)
Record Track : Type := mkTrack {
  track_id : Z;
  title : option string;
  genre_top : option string;
  artist_name : option string
}.

(** A row of [candidates]: genre and artist overwritten by their cleaned
    form, and the added [similarity] column. *)
Record Cand : Type := mkCand {
  c_track_id : Z;
  c_title : option string;
  c_genre_top : string;
  c_artist_name : string;
  similarity : float
}.

(** What the two recommenders return. [EmptyDataFrame] is [pd.DataFrame()],
    a frame with no column at all; [Frame rows] has the columns of
    [candidates], with any number of rows, zero included. *)
Inductive DataFrame : Type :=
| EmptyDataFrame
| Frame (rows : list Cand).

Definition rows (df : DataFrame) : list Cand :=
  match df with
  | EmptyDataFrame => []
  | Frame l => l
  end.

(** [pd.concat([a, b])]: the rows of [a], then those of [b]; the columns
    are the union, so only two column-less frames give a column-less one. *)
Definition pd_concat (a b : DataFrame) : DataFrame :=
  match a, b with
  | EmptyDataFrame, _ => b
  | _, EmptyDataFrame => a
  | Frame r1, Frame r2 => Frame (r1 ++ r2)
  end.

(** [df.head(n)] is [df.iloc[:n]]: the first [n] rows, and for a negative
    [n] all rows but the last [-n]. *)
Definition head {A : Type} (n : Z) (l : list A) : list A :=
  if 0 <=? n then firstn (Z.to_nat n) l
  else firstn (length l - Z.to_nat (- n)) l.

(** [df.take(positions)]: the rows at the given positions, in that order.
    The positions come from an argsort or a shuffle of [len(df)], which
    stay below [length l]; a position out of range selects nothing here. *)
Definition take {A : Type} (l : list A) (positions : list nat) : list A :=
  flat_map (fun i => match nth_error l i with
                     | Some x => [x]
                     | None => []
                     end) positions.

(** [drop_duplicates(subset='track_id')], [keep='first']: a row is dropped
    when an earlier row has its [track_id]. *)
Fixpoint drop_duplicates_from (seen : list Z) (l : list Cand) : list Cand :=
  match l with
  | [] => []
  | c :: r =>
      if existsb (Z.eqb (c_track_id c)) seen
      then drop_duplicates_from seen r
      else c :: drop_duplicates_from (c_track_id c :: seen) r
  end.

Definition drop_duplicates (l : list Cand) : list Cand :=
  drop_duplicates_from [] l.

(** On frames: [drop_duplicates] returns a copy of an empty frame before it
    looks at [subset]; [head] slices rows. *)
Definition frame_drop_duplicates (df : DataFrame) : DataFrame :=
  match df with
  | EmptyDataFrame => EmptyDataFrame
  | Frame l => Frame (drop_duplicates l)
  end.

Definition frame_head (n : Z) (df : DataFrame) : DataFrame :=
  match df with
  | EmptyDataFrame => EmptyDataFrame
  | Frame l => Frame (head n l)
  end.

(** ** Scoring one candidate (app.py, lines 30-35) *)

Definition score_row (genre artist : string) (t : Track) : Cand :=
  let g := clean_string (genre_top t) in
  let a := clean_string (artist_name t) in
  let s0 := 0.0%float in
  let s1 := if String.eqb g genre then (s0 + 0.7)%float else s0 in
  let s2 := if String.eqb a artist then (s1 + 0.3)%float else s1 in
  mkCand (track_id t) (title t) g a s2.

(** ** The recommenders *)

Section Recommender.

(** [argsort_desc keys]: the positions in which
    [sort_values(by='similarity', ascending=False)] lists rows whose
    similarity column is [keys]. *)
Variable argsort_desc : list float -> list nat.

(** [permutation m]: [RandomState(42).permutation(m)]. *)
Variable permutation : nat -> list nat.

Definition sort_values (l : list Cand) : list Cand :=
  take l (argsort_desc (map similarity l)).

(** [sort_values] looks the column up first: on a frame without a
    [similarity] column it raises [KeyError]. *)
Definition frame_sort_values (df : DataFrame) : result DataFrame :=
  match df with
  | EmptyDataFrame => Raise KeyError
  | Frame l => Ok (Frame (sort_values l))
  end.

(** [pop.sample(n=n, random_state=42)]: without replacement, so asking
    for more rows than [pop] has raises [ValueError]; otherwise the rows
    at the first [n] positions of the shuffle of [len(pop)]. *)
Definition sample (n : nat) (pop : list Cand) : result (list Cand) :=
  if (length pop <? n)%nat then Raise ValueError
  else Ok (take pop (firstn n (permutation (length pop)))).

(** app.py, lines 21-39. *)
Definition recommend_based_on_genre_artist
    (tid : Z) (track_df : list Track) (top_k : Z) : result DataFrame :=
  match find (fun t => track_id t =? tid) track_df with
  | None => Ok EmptyDataFrame
  | Some input_track =>
      let genre := clean_string (genre_top input_track) in
      let artist := clean_string (artist_name input_track) in
      let candidates :=
        map (score_row genre artist)
            (filter (fun t => negb (track_id t =? tid)) track_df) in
      let top := head (top_k * 2) (sort_values candidates) in
      diverse <- sample (Nat.min 5 (length candidates))
                   (filter (fun c => negb (String.eqb (c_genre_top c) genre))
                           candidates) ;;
      Ok (Frame (head (top_k + 3)
                   (drop_duplicates (head top_k top ++ diverse))))
  end.

(** The loop of lines 42-45, started from [all_recs]. *)
Fixpoint accumulate (fav_ids : list Z) (track_df : list Track)
    (all_recs : DataFrame) : result DataFrame :=
  match fav_ids with
  | [] => Ok all_recs
  | tid :: rest =>
      recs <- recommend_based_on_genre_artist tid track_df 3 ;;
      accumulate rest track_df (pd_concat all_recs recs)
  end.

(** app.py, lines 41-46. *)
Definition recommend_from_favorites
    (fav_ids : list Z) (track_df : list Track) (top_k : Z) : result DataFrame :=
  all_recs <- accumulate fav_ids track_df EmptyDataFrame ;;
  sorted <- frame_sort_values (frame_drop_duplicates all_recs) ;;
  Ok (frame_head top_k sorted).

(** app.py, lines 48-49. *)
Definition recommend_from_watch_history
    (history_ids : list Z) (track_df : list Track) (top_k : Z) : result DataFrame :=
  recommend_from_favorites history_ids track_df top_k.

End Recommender.

(** The weights as the specification tabulates them: both attributes
    match, the genre only, the artist only, neither. *)
Definition expected_similarity (genre_match artist_match : bool) : float :=
  match genre_match, artist_match with
  | true, true => 1.0%float
  | true, false => 0.7%float
  | false, true => 0.3%float
  | false, false => 0.0%float
  end.

(** ** What the library calls promise *)

(** The four values the similarity column can hold. *)
Definition is_score (x : float) : Prop :=
  x = 0.0%float \/ x = (0.0 + 0.3)%float \/ x = (0.0 + 0.7)%float
  \/ x = (0.0 + 0.7 + 0.3)%float.

(** [ge_sim x y]: [x >= y] on binary64 numbers. *)
Definition ge_sim (x y : float) : Prop := PrimFloat.leb y x = true.

(** Each entry is greater than or equal to the next one. *)
Definition descending (keys : list float) : Prop := Sorted ge_sim keys.

Definition by_similarity (a b : Cand) : Prop :=
  ge_sim (similarity a) (similarity b).

(** The contract of [sort_values(ascending=False)] with the default
    [kind]: the positions are a rearrangement of [0 .. len-1], and the keys
    read in that order go down. Nothing is said about equal keys. *)
Definition argsort_contract (argsort : list float -> list nat) : Prop :=
  (forall keys, Permutation (argsort keys) (seq 0 (length keys)))
  /\ (forall keys, Forall is_score keys -> descending (take keys (argsort keys))).

(** The contract of [RandomState.permutation(m)]: a rearrangement of
    [0 .. m-1]. *)
Definition shuffle_contract (permutation : nat -> list nat) : Prop :=
  forall m, Permutation (permutation m) (seq 0 m).

(** ** Two sorts and a shuffle that meet the contracts

    They instantiate the parameters where a statement is run on concrete
    tracks. Both sorts are insertion sorts over (position, key) pairs;
    they differ only in where a key goes among its equals. *)

Fixpoint insert_by (before : float -> float -> bool) (p : nat * float)
    (l : list (nat * float)) : list (nat * float) :=
  match l with
  | [] => [p]
  | q :: r => if before (snd p) (snd q) then p :: l else q :: insert_by before p r
  end.

Definition argsort_by (before : float -> float -> bool) (keys : list float)
    : list nat :=
  map fst (fold_right (insert_by before) []
             (combine (seq 0 (length keys)) keys)).

(** Equal keys keep their input order (what [kind='stable'] would do). *)
Definition argsort_stable : list float -> list nat :=
  argsort_by (fun x y => PrimFloat.leb y x).

(** Equal keys come out in reverse input order. *)
Definition argsort_rev_ties : list float -> list nat :=
  argsort_by (fun x y => PrimFloat.ltb y x).

Definition shuffle_rev (m : nat) : list nat := rev (seq 0 m).

(** ** The stable sort the specification asks for

    Rows by similarity, descending, equal similarities in input order. It
    is the reference the aggregator's sort is compared with, not part of
    the source. *)

Fixpoint insert_row (c : Cand) (l : list Cand) : list Cand :=
  match l with
  | [] => [c]
  | d :: r =>
      if PrimFloat.leb (similarity d) (similarity c) then c :: l
      else d :: insert_row c r
  end.

Definition stable_sort_desc (l : list Cand) : list Cand :=
  fold_right insert_row [] l.

(** ** Catalogs used as concrete inputs *)

(** The four tracks of the specification's scenarios. *)
Definition scenario_catalog : list Track :=
  [ mkTrack 1 None (Some "Rock"%string) (Some "A"%string);
    mkTrack 2 None (Some "Rock"%string) (Some "B"%string);
    mkTrack 3 None (Some "Jazz"%string) (Some "A"%string);
    mkTrack 4 None (Some "Jazz"%string) (Some "C"%string) ].

(** A seed (track 1) and five tracks of other genres, four of them by the
    seed's artist. *)
Definition six_tracks : list Track :=
  [ mkTrack 1 (Some "one"%string) (Some " Rock"%string) (Some "A"%string);
    mkTrack 2 (Some "two"%string) (Some "Jazz"%string) (Some "a "%string);
    mkTrack 3 (Some "three"%string) (Some "Jazz"%string) (Some "A"%string);
    mkTrack 4 (Some "four"%string) (Some "Pop"%string) (Some "A"%string);
    mkTrack 5 (Some "five"%string) None (Some "a"%string);
    mkTrack 6 (Some "six"%string) (Some "Pop"%string) None ].

(** A seed and two tracks that match it in nothing. *)
Definition three_tracks : list Track :=
  [ mkTrack 1 None (Some "Rock"%string) (Some "A"%string);
    mkTrack 2 None (Some "Jazz"%string) (Some "B"%string);
    mkTrack 3 None (Some "Pop"%string) (Some "C"%string) ].

(** Seven tracks in four genres; every track has five tracks of another
    genre beside it. *)
Definition seven_tracks : list Track :=
  [ mkTrack 1 (Some "one"%string) (Some "Rock"%string) (Some "A"%string);
    mkTrack 2 (Some "two"%string) (Some "Jazz"%string) (Some "B"%string);
    mkTrack 3 (Some "three"%string) (Some "jazz "%string) (Some "A"%string);
    mkTrack 4 (Some "four"%string) (Some "Pop"%string) (Some "B"%string);
    mkTrack 5 (Some "five"%string) (Some "POP"%string) (Some "a"%string);
    mkTrack 6 (Some "six"%string) (Some "Folk"%string) None;
    mkTrack 7 (Some "seven"%string) (Some "Folk"%string) (Some "C"%string) ].

Definition ids (df : DataFrame) : list Z := map c_track_id (rows df).

Definition result_ids (r : result DataFrame) : result (list Z) :=
  df <- r ;; Ok (ids df).

(** ** Names for the scorer's intermediate frames *)

(** [candidates] of line 29-35 for the seed row [seed] of id [tid]. *)
Definition candidates_for (tid : Z) (seed : Track) (track_df : list Track)
    : list Cand :=
  map (score_row (clean_string (genre_top seed)) (clean_string (artist_name seed)))
      (filter (fun t => negb (track_id t =? tid)) track_df).

(** [candidates[candidates['genre_top'] != genre]] of line 38. *)
Definition other_genre (seed : Track) (candidates : list Cand) : list Cand :=
  filter (fun c => negb (String.eqb (c_genre_top c) (clean_string (genre_top seed))))
         candidates.

(** A text of whitespace only, and a cell that is missing or such a text. *)
Definition all_space (s : string) : bool :=
  forallb Str.is_space (list_ascii_of_string s).

Definition blank (val : option string) : bool :=
  match val with
  | None => true
  | Some s => all_space s
  end.

(** A text of ASCII characters only, and a cell that is missing or such a
    text: the cells on which [clean_string] is the code's. *)
Definition ascii_text (s : string) : bool :=
  forallb (fun c => (N_of_ascii c <? 128)%N) (list_ascii_of_string s).

Definition ascii_cell (val : option string) : bool :=
  match val with
  | None => true
  | Some s => ascii_text s
  end.

Definition is_upper (c : ascii) : bool :=
  ((65 <=? N_of_ascii c) && (N_of_ascii c <=? 90))%N.

(** ** The [/recommend] endpoints

    [recommend_api.py], lines 56-68, and [app.py], lines 69-85. A request
    is the parsed [RecommendationRequest]. An endpoint returns the list of
    records of [to_dict(orient='records')], or raises: an [HTTPException]
    of its own, or a Python error that escapes it. *)

Module Http.

Record RecommendationRequest : Type := mkRequest {
  track_ids : list Z;
  source : string;
  top_k : Z
}.

Inductive raised : Type :=
| PyError (e : exn)
| HTTPException (status_code : Z) (detail : string).

Inductive outcome (A : Type) : Type :=
| Returns (a : A)
| Raises (r : raised).

Arguments Returns {A} a.
Arguments Raises {A} r.

Definition of_result {A : Type} (r : result A) : outcome A :=
  match r with
  | Ok a => Returns a
  | Raise e => Raises (PyError e)
  end.

(** [recs[['track_id', 'title', 'genre_top', 'artist_name',
    'similarity']].to_dict(orient='records')]: the five columns are those
    of a [Cand]; selecting them from a frame without columns raises
    [KeyError]. *)
Definition to_records (recs : DataFrame) : result (list Cand) :=
  match recs with
  | EmptyDataFrame => Raise KeyError
  | Frame l => Ok l
  end.

Section Endpoints.

Variable argsort_desc : list float -> list nat.
Variable permutation : nat -> list nat.

(** The module-level [track_df]. *)
Variable track_df : list Track.

(** [str(e)], as the f-string of app.py, line 85, formats the caught
    exception. *)
Variable str : raised -> string.

(** recommend_api.py, lines 56-68. *)
Definition recommend_api_recommend (req : RecommendationRequest)
    : outcome (list Cand) :=
  match track_ids req with
  | [] => Raises (HTTPException 400 "No track IDs provided.")
  | _ :: _ =>
      if String.eqb (source req) "history" then
        match recommend_from_watch_history argsort_desc permutation
                (track_ids req) track_df (top_k req) with
        | Ok recs => of_result (to_records recs)
        | Raise e => Raises (PyError e)
        end
      else if String.eqb (source req) "favorites" then
        match recommend_from_favorites argsort_desc permutation
                (track_ids req) track_df (top_k req) with
        | Ok recs => of_result (to_records recs)
        | Raise e => Raises (PyError e)
        end
      else Raises (HTTPException 400 "Invalid source. Use 'history' or 'favorites'.")
  end.

(** The [try] block of app.py, lines 72-82. *)
Definition app_recommend_try (req : RecommendationRequest)
    : outcome (list Cand) :=
  match track_ids req with
  | [] => Raises (HTTPException 400 "No track IDs provided.")
  | _ :: _ =>
      if String.eqb (source req) "history" then
        match recommend_from_watch_history argsort_desc permutation
                (track_ids req) track_df (top_k req) with
        | Ok recs => of_result (to_records recs)
        | Raise e => Raises (PyError e)
        end
      else if String.eqb (source req) "favorites" then
        match recommend_from_favorites argsort_desc permutation
                (track_ids req) track_df (top_k req) with
        | Ok recs => of_result (to_records recs)
        | Raise e => Raises (PyError e)
        end
      else Raises (HTTPException 400 "Invalid source. Use 'history' or 'favorites'.")
  end.

(** app.py, lines 69-85: [except Exception as e] catches whatever the
    block raises, [HTTPException] included, and raises
    [HTTPException(500, f"Server error: {e}")]. The traceback it prints is
    not modelled. *)
Definition app_recommend (req : RecommendationRequest) : outcome (list Cand) :=
  match app_recommend_try req with
  | Returns records => Returns records
  | Raises e => Raises (HTTPException 500 (String.append "Server error: " (str e)))
  end.

End Endpoints.

End Http.

(** * Properties *)

(** ** Normalization *)

Module StrFacts.
Import Str.

Lemma is_space_to_lower (c : ascii) : is_space (to_lower c) = is_space c.
Proof. destruct c as [[] [] [] [] [] [] [] []]; reflexivity. Qed.

Lemma to_lower_idempotent (c : ascii) : to_lower (to_lower c) = to_lower c.
Proof. destruct c as [[] [] [] [] [] [] [] []]; reflexivity. Qed.

Lemma lower_idempotent (s : string) : lower (lower s) = lower s.
Proof.
  induction s as [|c s IH]; simpl; [reflexivity|].
  now rewrite to_lower_idempotent, IH.
Qed.

Lemma lstrip_length (s : string) : (String.length (lstrip s) <= String.length s)%nat.
Proof.
  induction s as [|c s IH]; simpl; [lia|].
  destruct (is_space c); simpl; lia.
Qed.

(** What [lstrip] leaves does not start with whitespace. *)
Lemma lstrip_head (s r : string) (c : ascii) :
  lstrip s = String c r -> is_space c = false.
Proof.
  induction s as [|d s IH]; simpl; [discriminate|].
  destruct (is_space d) eqn:E; [exact IH|].
  intros [= <- _]. exact E.
Qed.

(** What [rstrip] leaves does not end with whitespace. *)
Lemma rstrip_last (s r : string) (c : ascii) :
  rstrip s = (r ++ String c EmptyString)%string -> is_space c = false.
Proof.
  revert r. induction s as [|d s IH]; intros r H; simpl in H.
  - destruct r; discriminate.
  - destruct (rstrip s) as [|e t] eqn:E.
    + destruct (is_space d) eqn:Ed.
      * destruct r; discriminate.
      * destruct r as [|d' r]; simpl in H.
        -- now injection H as <-.
        -- injection H as _ H. destruct r; discriminate.
    + destruct r as [|d' r]; simpl in H; [discriminate|].
      injection H as _ H. exact (IH r H).
Qed.

Lemma lstrip_idempotent (s : string) : lstrip (lstrip s) = lstrip s.
Proof.
  induction s as [|c s IH]; simpl; [reflexivity|].
  destruct (is_space c) eqn:E; [exact IH|]. simpl. now rewrite E.
Qed.

Lemma rstrip_idempotent (s : string) : rstrip (rstrip s) = rstrip s.
Proof.
  induction s as [|c s IH]; simpl; [reflexivity|].
  destruct (rstrip s) as [|d t] eqn:E.
  - destruct (is_space c) eqn:Ec; simpl; [reflexivity|now rewrite Ec].
  - change (rstrip (String c (String d t))) with
      (match rstrip (String d t) with
       | EmptyString => if is_space c then EmptyString else String c EmptyString
       | String a b => String c (String a b)
       end).
    now rewrite IH.
Qed.

Lemma lstrip_rstrip (t : string) :
  lstrip t = t -> lstrip (rstrip t) = rstrip t.
Proof.
  destruct t as [|c r]; [reflexivity|]. intro H.
  assert (Ec : is_space c = false).
  { simpl in H. destruct (is_space c); [|reflexivity].
    pose proof (lstrip_length r) as L. rewrite H in L. simpl in L. lia. }
  simpl. destruct (rstrip r); rewrite ?Ec; simpl; now rewrite Ec.
Qed.

Lemma strip_idempotent (s : string) : strip (strip s) = strip s.
Proof.
  unfold strip.
  rewrite (lstrip_rstrip (lstrip s)) by apply lstrip_idempotent.
  apply rstrip_idempotent.
Qed.

Lemma lstrip_lower (s : string) : lstrip (lower s) = lower (lstrip s).
Proof.
  induction s as [|c s IH]; simpl; [reflexivity|].
  rewrite is_space_to_lower. now destruct (is_space c).
Qed.

Lemma rstrip_lower (s : string) : rstrip (lower s) = lower (rstrip s).
Proof.
  induction s as [|c s IH]; simpl; [reflexivity|].
  rewrite IH, is_space_to_lower.
  destruct (rstrip s); simpl; [|reflexivity].
  now destruct (is_space c).
Qed.

Lemma strip_lower (s : string) : strip (lower s) = lower (strip s).
Proof. unfold strip. now rewrite lstrip_lower, rstrip_lower. Qed.

End StrFacts.

(** Cleaning a cleaned value changes nothing. *)
Lemma clean_string_idempotent (val : option string) :
  clean_string (Some (clean_string val)) = clean_string val.
Proof.
  destruct val as [s|]; simpl; [|reflexivity].
  now rewrite StrFacts.strip_lower, StrFacts.strip_idempotent,
    StrFacts.lower_idempotent.
Qed.

(** ** Lists: [head], [take], [drop_duplicates] *)

Lemma head_firstn {A : Type} (n : Z) (l : list A) :
  exists m, head n l = firstn m l.
Proof.
  unfold head. destruct (0 <=? n); eauto.
Qed.

Lemma firstn_In {A : Type} (m : nat) (l : list A) (x : A) :
  In x (firstn m l) -> In x l.
Proof.
  intro H. rewrite <- (firstn_skipn m l). apply in_or_app. now left.
Qed.

Lemma head_In {A : Type} (n : Z) (l : list A) (x : A) :
  In x (head n l) -> In x l.
Proof.
  destruct (head_firstn n l) as [m ->]. apply firstn_In.
Qed.

Lemma head_length {A : Type} (n : Z) (l : list A) :
  0 <= n -> Z.of_nat (length (head n l)) <= n.
Proof.
  intro Hn. unfold head.
  destruct (Z.leb_spec 0 n) as [_|Hneg]; [|lia].
  pose proof (firstn_le_length (Z.to_nat n) l).
  rewrite length_firstn. lia.
Qed.

Lemma firstn_NoDup {A : Type} (m : nat) (l : list A) :
  NoDup l -> NoDup (firstn m l).
Proof.
  intro H. rewrite <- (firstn_skipn m l) in H.
  now apply NoDup_app_remove_r in H.
Qed.

Lemma head_NoDup_map {A B : Type} (f : A -> B) (n : Z) (l : list A) :
  NoDup (map f l) -> NoDup (map f (head n l)).
Proof.
  destruct (head_firstn n l) as [m ->].
  rewrite <- firstn_map. apply firstn_NoDup.
Qed.

Lemma firstn_HdRel {A : Type} (R : A -> A -> Prop) (a : A) (m : nat) (l : list A) :
  HdRel R a l -> HdRel R a (firstn m l).
Proof.
  intro H. destruct m, l; simpl; auto.
  inversion H; subst. now constructor.
Qed.

Lemma firstn_Sorted {A : Type} (R : A -> A -> Prop) (m : nat) (l : list A) :
  Sorted R l -> Sorted R (firstn m l).
Proof.
  intro H. revert m. induction H as [|a l Hs IH Hd]; intro m.
  - rewrite firstn_nil. constructor.
  - destruct m; simpl; constructor; auto using firstn_HdRel.
Qed.

Lemma head_Sorted {A : Type} (R : A -> A -> Prop) (n : Z) (l : list A) :
  Sorted R l -> Sorted R (head n l).
Proof.
  destruct (head_firstn n l) as [m ->]. apply firstn_Sorted.
Qed.

Lemma take_In {A : Type} (l : list A) (positions : list nat) (x : A) :
  In x (take l positions) -> In x l.
Proof.
  unfold take. rewrite in_flat_map. intros (i & _ & Hx).
  destruct (nth_error l i) as [y|] eqn:E; simpl in Hx; [|contradiction].
  destruct Hx as [->|[]]. eapply nth_error_In; eauto.
Qed.

Lemma take_map {A B : Type} (f : A -> B) (l : list A) (positions : list nat) :
  map f (take l positions) = take (map f l) positions.
Proof.
  induction positions as [|i r IH]; simpl; [reflexivity|].
  rewrite map_app, IH, nth_error_map.
  now destruct (nth_error l i).
Qed.

Lemma take_seq_from {A : Type} (l p : list A) :
  take (p ++ l) (seq (length p) (length l)) = l.
Proof.
  revert p. induction l as [|x l IH]; intro p; simpl; [reflexivity|].
  rewrite nth_error_app2, Nat.sub_diag by lia. simpl. f_equal.
  specialize (IH (p ++ [x])).
  rewrite <- app_assoc, length_app in IH. simpl in IH.
  now rewrite Nat.add_1_r in IH.
Qed.

Lemma take_all {A : Type} (l : list A) : take l (seq 0 (length l)) = l.
Proof. exact (take_seq_from l []). Qed.

Lemma take_Permutation {A : Type} (l : list A) (positions : list nat) :
  Permutation positions (seq 0 (length l)) -> Permutation (take l positions) l.
Proof.
  intro H. rewrite <- (take_all l) at 2.
  unfold take. now apply Permutation_flat_map.
Qed.

Lemma take_app {A : Type} (l : list A) (p q : list nat) :
  take l (p ++ q) = take l p ++ take l q.
Proof. unfold take. apply flat_map_app. Qed.

Lemma take_length {A : Type} (l : list A) (positions : list nat) :
  Forall (fun i => (i < length l)%nat) positions ->
  length (take l positions) = length positions.
Proof.
  induction 1 as [|i r Hi Hr IH]; simpl; [reflexivity|].
  rewrite length_app, IH.
  destruct (nth_error l i) eqn:E; [reflexivity|].
  apply nth_error_None in E. lia.
Qed.

(** Under the shuffle's contract a draw that does not raise takes [n] rows
    of the population, each row at most as often as it is there. *)
Lemma sample_draws (permutation : nat -> list nat) (n : nat)
    (pop out : list Cand) :
  shuffle_contract permutation ->
  sample permutation n pop = Ok out ->
  length out = n /\ exists rest, Permutation (out ++ rest) pop.
Proof.
  intros Hperm. unfold sample.
  destruct (Nat.ltb_spec (length pop) n) as [|Hn]; [discriminate|].
  intros [= <-]. specialize (Hperm (length pop)). split.
  - rewrite take_length.
    + rewrite length_firstn, (Permutation_length Hperm), length_seq. lia.
    + rewrite Forall_forall. intros i Hi. apply firstn_In in Hi.
      eapply Permutation_in in Hi; [|exact Hperm].
      apply in_seq in Hi. lia.
  - exists (take pop (skipn n (permutation (length pop)))).
    rewrite <- take_app, firstn_skipn. now apply take_Permutation.
Qed.

Lemma shuffle_rev_contract : shuffle_contract shuffle_rev.
Proof. intro m. unfold shuffle_rev. symmetry. apply Permutation_rev. Qed.

Lemma seen_spec (z : Z) (seen : list Z) :
  existsb (Z.eqb z) seen = true <-> In z seen.
Proof.
  rewrite existsb_exists. split.
  - intros (y & Hy & E). apply Z.eqb_eq in E. now subst.
  - intro H. exists z. split; [assumption|apply Z.eqb_refl].
Qed.

Lemma drop_duplicates_from_In (seen : list Z) (l : list Cand) (c : Cand) :
  In c (drop_duplicates_from seen l) -> In c l /\ ~ In (c_track_id c) seen.
Proof.
  revert seen. induction l as [|d r IH]; intros seen H; simpl in *; [contradiction|].
  destruct (existsb (Z.eqb (c_track_id d)) seen) eqn:E.
  - destruct (IH _ H); auto.
  - destruct H as [->|H].
    + split; [now left|]. rewrite <- seen_spec. congruence.
    + destruct (IH _ H) as [Hin Hs]. split; [now right|].
      intro Hc. apply Hs. now right.
Qed.

Lemma drop_duplicates_from_NoDup (seen : list Z) (l : list Cand) :
  NoDup (map c_track_id (drop_duplicates_from seen l)).
Proof.
  revert seen. induction l as [|d r IH]; intro seen; simpl; [constructor|].
  destruct (existsb (Z.eqb (c_track_id d)) seen); [apply IH|].
  simpl. constructor; [|apply IH].
  rewrite in_map_iff. intros (c & Hid & Hc).
  apply drop_duplicates_from_In in Hc. destruct Hc as [_ Hs].
  apply Hs. left. now symmetry.
Qed.

Lemma drop_duplicates_In (l : list Cand) (c : Cand) :
  In c (drop_duplicates l) -> In c l.
Proof. intro H. now apply drop_duplicates_from_In in H. Qed.

Lemma drop_duplicates_NoDup (l : list Cand) :
  NoDup (map c_track_id (drop_duplicates l)).
Proof. apply drop_duplicates_from_NoDup. Qed.

(** Rows whose ids were all met before leave no trace. *)
Lemma drop_duplicates_from_skip (seen : list Z) (r b : list Cand) :
  (forall c, In c r -> In (c_track_id c) seen) ->
  drop_duplicates_from seen (r ++ b) = drop_duplicates_from seen b.
Proof.
  induction r as [|c r IH]; intro H; simpl; [reflexivity|].
  assert (E : existsb (Z.eqb (c_track_id c)) seen = true).
  { apply seen_spec, H. now left. }
  rewrite E. apply IH. intros d Hd. apply H. now right.
Qed.

Lemma drop_duplicates_from_absorb (seen : list Z) (a r b : list Cand) :
  (forall c, In c r -> In (c_track_id c) (map c_track_id a ++ seen)) ->
  drop_duplicates_from seen (a ++ r ++ b) = drop_duplicates_from seen (a ++ b).
Proof.
  revert seen. induction a as [|x a IH]; intros seen H; simpl in *.
  - now apply drop_duplicates_from_skip.
  - destruct (existsb (Z.eqb (c_track_id x)) seen) eqn:E.
    + apply IH. intros c Hc. destruct (H c Hc) as [<-|Hin]; [|assumption].
      apply in_or_app. right. now apply seen_spec.
    + f_equal. apply IH. intros c Hc. apply in_or_app.
      destruct (H c Hc) as [<-|Hin]; [right; now left|].
      apply in_app_or in Hin. destruct Hin; [now left|right; now right].
Qed.

(** ** Scoring *)

Lemma score_row_is_score (genre artist : string) (t : Track) :
  is_score (similarity (score_row genre artist t)).
Proof.
  unfold is_score, score_row. simpl.
  destruct (String.eqb (clean_string (genre_top t)) genre),
           (String.eqb (clean_string (artist_name t)) artist); auto.
Qed.

Lemma score_row_table (genre artist : string) (t : Track) :
  similarity (score_row genre artist t)
  = expected_similarity
      (String.eqb (clean_string (genre_top t)) genre)
      (String.eqb (clean_string (artist_name t)) artist).
Proof.
  unfold score_row. simpl.
  destruct (String.eqb (clean_string (genre_top t)) genre),
           (String.eqb (clean_string (artist_name t)) artist); reflexivity.
Qed.

Lemma find_track_unknown (tid : Z) (track_df : list Track) :
  ~ In tid (map track_id track_df) ->
  find (fun t => track_id t =? tid) track_df = None.
Proof.
  intro H. destruct (find _ track_df) as [t|] eqn:E; [|reflexivity].
  apply find_some in E. destruct E as [Hin Heq]. apply Z.eqb_eq in Heq.
  exfalso. apply H. rewrite <- Heq. now apply in_map.
Qed.

Lemma find_track_known (tid : Z) (track_df : list Track) :
  In tid (map track_id track_df) ->
  exists seed, find (fun t => track_id t =? tid) track_df = Some seed.
Proof.
  intro H. destruct (find _ track_df) as [t|] eqn:E; [eauto|].
  apply in_map_iff in H. destruct H as (t & Hid & Hin).
  pose proof (find_none _ _ E t Hin) as Hf. simpl in Hf.
  rewrite Hid, Z.eqb_refl in Hf. discriminate.
Qed.

Section Properties.

Variable argsort_desc : list float -> list nat.
Variable permutation : nat -> list nat.

Local Abbreviation scorer := (recommend_based_on_genre_artist argsort_desc permutation).
Local Abbreviation favorites := (recommend_from_favorites argsort_desc permutation).
Local Abbreviation collect := (accumulate argsort_desc permutation).

Lemma sort_values_In (l : list Cand) (c : Cand) :
  In c (sort_values argsort_desc l) -> In c l.
Proof. apply take_In. Qed.

Lemma sample_In (n : nat) (pop out : list Cand) (c : Cand) :
  sample permutation n pop = Ok out -> In c out -> In c pop.
Proof.
  unfold sample. destruct (length pop <? n)%nat; [discriminate|].
  intros [= <-]. apply take_In.
Qed.

Lemma scorer_unknown (tid : Z) (track_df : list Track) (top_k : Z) :
  ~ In tid (map track_id track_df) ->
  scorer tid track_df top_k = Ok EmptyDataFrame.
Proof.
  intro H. unfold recommend_based_on_genre_artist.
  now rewrite (find_track_unknown _ _ H).
Qed.

(** What a returned frame is made of when the seed is in the catalog. *)
Lemma scorer_known (tid : Z) (track_df : list Track) (top_k : Z)
    (seed : Track) (out : DataFrame) :
  find (fun t => track_id t =? tid) track_df = Some seed ->
  scorer tid track_df top_k = Ok out ->
  exists l, out = Frame l
    /\ NoDup (map c_track_id l)
    /\ (0 <= top_k + 3 -> Z.of_nat (length l) <= top_k + 3)
    /\ forall c, In c l ->
         exists t, In t track_df /\ track_id t <> tid
           /\ c = score_row (clean_string (genre_top seed))
                            (clean_string (artist_name seed)) t.
Proof.
  intros Hseed Hrun. unfold recommend_based_on_genre_artist in Hrun.
  rewrite Hseed in Hrun. cbv zeta in Hrun.
  destruct (sample _ _ _) as [diverse|e] eqn:Hs; simpl in Hrun; [|discriminate].
  injection Hrun as <-. eexists. split; [reflexivity|].
  split; [apply head_NoDup_map, drop_duplicates_NoDup|].
  split; [apply head_length|].
  intros c Hc. apply head_In, drop_duplicates_In in Hc.
  assert (Hcand : In c (map (score_row (clean_string (genre_top seed))
                                       (clean_string (artist_name seed)))
                            (filter (fun t => negb (track_id t =? tid)) track_df))).
  { apply in_app_or in Hc. destruct Hc as [Hc|Hc].
    - now apply head_In, head_In, sort_values_In in Hc.
    - eapply sample_In in Hc; [|exact Hs].
      apply filter_In in Hc. tauto. }
  apply in_map_iff in Hcand. destruct Hcand as (t & <- & Ht).
  apply filter_In in Ht. destruct Ht as [Hin Hne].
  exists t. repeat split; auto.
  intro E. rewrite E, Z.eqb_refl in Hne. discriminate.
Qed.

Lemma scorer_rows_of_candidates (tid : Z) (track_df : list Track) (top_k : Z)
    (out : DataFrame) (c : Cand) :
  scorer tid track_df top_k = Ok out -> In c (rows out) ->
  c_track_id c <> tid /\ is_score (similarity c).
Proof.
  intros Hrun Hc.
  destruct (find (fun t => track_id t =? tid) track_df) as [seed|] eqn:Hseed.
  - destruct (scorer_known _ _ _ _ _ Hseed Hrun) as (l & -> & _ & _ & Hl).
    destruct (Hl c Hc) as (t & _ & Hne & ->).
    split; [exact Hne|apply score_row_is_score].
  - unfold recommend_based_on_genre_artist in Hrun. rewrite Hseed in Hrun.
    injection Hrun as <-. contradiction.
Qed.

(** ** The accumulation loop *)

Lemma pd_concat_empty_r (a : DataFrame) : pd_concat a EmptyDataFrame = a.
Proof. now destruct a. Qed.

Lemma pd_concat_assoc (a b c : DataFrame) :
  pd_concat (pd_concat a b) c = pd_concat a (pd_concat b c).
Proof.
  destruct a, b, c; simpl; try reflexivity. now rewrite app_assoc.
Qed.

Lemma pd_concat_empty_inv (a b : DataFrame) :
  pd_concat a b = EmptyDataFrame -> a = EmptyDataFrame /\ b = EmptyDataFrame.
Proof. destruct a, b; simpl; intro H; try discriminate; auto. Qed.

Lemma rows_pd_concat (a b : DataFrame) :
  rows (pd_concat a b) = rows a ++ rows b.
Proof. destruct a, b; simpl; auto using app_nil_r. Qed.

(** Starting the loop from [X] appends what it collects to [X]. *)
Lemma collect_from (fav_ids : list Z) (track_df : list Track) (X : DataFrame) :
  collect fav_ids track_df X
  = (C <- collect fav_ids track_df EmptyDataFrame ;; Ok (pd_concat X C)).
Proof.
  revert X. induction fav_ids as [|tid rest IH]; intro X; simpl.
  - now rewrite pd_concat_empty_r.
  - destruct (scorer tid track_df 3) as [recs|e]; simpl; [|reflexivity].
    rewrite (IH (pd_concat X recs)), (IH recs).
    destruct (collect rest track_df EmptyDataFrame); simpl; [|reflexivity].
    now rewrite pd_concat_assoc.
Qed.

Lemma collect_app (l1 l2 : list Z) (track_df : list Track) (X : DataFrame) :
  collect (l1 ++ l2) track_df X
  = (Y <- collect l1 track_df X ;; collect l2 track_df Y).
Proof.
  revert X. induction l1 as [|tid rest IH]; intro X; simpl; [reflexivity|].
  destruct (scorer tid track_df 3); simpl; [apply IH|reflexivity].
Qed.

Lemma collect_rows (fav_ids : list Z) (track_df : list Track) (X A : DataFrame) (c : Cand) :
  collect fav_ids track_df X = Ok A -> In c (rows A) ->
  In c (rows X)
  \/ exists tid out, In tid fav_ids /\ scorer tid track_df 3 = Ok out /\ In c (rows out).
Proof.
  revert X. induction fav_ids as [|tid rest IH]; intros X H Hc; simpl in H.
  - injection H as <-. now left.
  - destruct (scorer tid track_df 3) as [recs|e] eqn:E; simpl in H; [|discriminate].
    destruct (IH _ H Hc) as [Hin|(t & out & Ht & Hrun & Hout)].
    + rewrite rows_pd_concat in Hin. apply in_app_or in Hin.
      destruct Hin as [Hin|Hin]; [now left|].
      right. exists tid, recs. simpl. auto.
    + right. exists t, out. simpl. auto.
Qed.

(** Once the loop has run over [s], it holds every row the scorer gives
    for [s]. *)
Lemma collect_absorbs (fav_ids : list Z) (track_df : list Track)
    (X A : DataFrame) (s : Z) :
  collect fav_ids track_df X = Ok A -> In s fav_ids ->
  exists R, scorer s track_df 3 = Ok R
    /\ (forall c, In c (rows R) -> In c (rows A))
    /\ (A = EmptyDataFrame -> R = EmptyDataFrame).
Proof.
  revert X. induction fav_ids as [|tid rest IH]; intros X H Hs; [contradiction|].
  simpl in H.
  destruct (scorer tid track_df 3) as [recs|e] eqn:E; simpl in H; [|discriminate].
  destruct Hs as [->|Hs]; [|eauto].
  exists recs. split; [assumption|].
  rewrite collect_from in H.
  destruct (collect rest track_df EmptyDataFrame) as [C|]; simpl in H; [|discriminate].
  injection H as <-. split.
  - intros c Hc. rewrite !rows_pd_concat. auto using in_or_app.
  - intro HA. apply pd_concat_empty_inv in HA. destruct HA as [HA _].
    now apply pd_concat_empty_inv in HA.
Qed.

Lemma frame_drop_duplicates_absorb (A R C : DataFrame) :
  (forall c, In c (rows R) -> In c (rows A)) ->
  (A = EmptyDataFrame -> R = EmptyDataFrame) ->
  frame_drop_duplicates (pd_concat (pd_concat A R) C)
  = frame_drop_duplicates (pd_concat A C).
Proof.
  intros Hsub Hempty.
  destruct A as [|a]; [now rewrite Hempty|].
  destruct R as [|r]; [reflexivity|].
  assert (Hids : forall c, In c r -> In (c_track_id c) (map c_track_id a ++ [])).
  { intros c Hc. rewrite app_nil_r. apply in_map, Hsub, Hc. }
  destruct C as [|c]; simpl; f_equal; unfold drop_duplicates.
  - rewrite <- (app_nil_r (a ++ r)), <- app_assoc.
    rewrite drop_duplicates_from_absorb by assumption. now rewrite app_nil_r.
  - rewrite <- app_assoc. now apply drop_duplicates_from_absorb.
Qed.

Lemma collect_all_unknown (fav_ids : list Z) (track_df : list Track) :
  (forall tid, In tid fav_ids -> ~ In tid (map track_id track_df)) ->
  collect fav_ids track_df EmptyDataFrame = Ok EmptyDataFrame.
Proof.
  induction fav_ids as [|tid rest IH]; intro H; simpl; [reflexivity|].
  rewrite scorer_unknown by (apply H; now left). simpl.
  apply IH. intros t Ht. apply H. now right.
Qed.

(** What a returned aggregate is made of. *)
Lemma favorites_inv (fav_ids : list Z) (track_df : list Track) (top_k : Z)
    (out : DataFrame) :
  favorites fav_ids track_df top_k = Ok out ->
  exists a, collect fav_ids track_df EmptyDataFrame = Ok (Frame a)
    /\ out = Frame (head top_k (sort_values argsort_desc (drop_duplicates a))).
Proof.
  unfold recommend_from_favorites. intro H.
  destruct (collect fav_ids track_df EmptyDataFrame) as [[|a]|e];
    simpl in H; try discriminate.
  injection H as <-. eauto.
Qed.

Lemma collect_scores (fav_ids : list Z) (track_df : list Track) (A : DataFrame) (c : Cand) :
  collect fav_ids track_df EmptyDataFrame = Ok A -> In c (rows A) ->
  is_score (similarity c).
Proof.
  intros H Hc. destruct (collect_rows _ _ _ _ _ H Hc) as [[]|(t & out & _ & Hrun & Hout)].
  now destruct (scorer_rows_of_candidates _ _ _ _ _ Hrun Hout).
Qed.

(** ** When the diversity draw raises *)

(** With the seed in the catalog, the only thing that can go wrong is the
    draw: it is asked for [min(5, len(candidates))] rows, counted over all
    candidates, out of the candidates of another genre only. *)
Lemma scorer_outcome (tid : Z) (track_df : list Track) (top_k : Z) (seed : Track) :
  find (fun t => track_id t =? tid) track_df = Some seed ->
  let candidates :=
    map (score_row (clean_string (genre_top seed)) (clean_string (artist_name seed)))
        (filter (fun t => negb (track_id t =? tid)) track_df) in
  let other_genre :=
    filter (fun c => negb (String.eqb (c_genre_top c) (clean_string (genre_top seed))))
           candidates in
  if (length other_genre <? Nat.min 5 (length candidates))%nat
  then scorer tid track_df top_k = Raise ValueError
  else exists l, scorer tid track_df top_k = Ok (Frame l).
Proof.
  intros Hseed candidates other_genre.
  unfold recommend_based_on_genre_artist. rewrite Hseed. cbv zeta.
  fold candidates. fold other_genre. unfold sample.
  destruct (length other_genre <? Nat.min 5 (length candidates))%nat; simpl; eauto.
Qed.

(** C2, at the catalog of the specification's scenarios. Track 1 is the
    seed; of the three candidates only tracks 3 and 4 are of another genre,
    so fewer than 5 genre-diverse candidates exist. The draw asks for
    min(5, 3) = 3 rows out of these 2 and raises ValueError, whatever
    [top_k], the sort and the shuffle are: it does not draw the 2 available
    candidates. *)
Theorem scenario_diversity_draw_raises (top_k : Z) :
  scorer 1 scenario_catalog top_k = Raise ValueError.
Proof.
  pose proof (scorer_outcome 1 scenario_catalog top_k
                (mkTrack 1 None (Some "Rock"%string) (Some "A"%string))
                eq_refl) as H.
  exact H.
Qed.

(** ** Unknown seeds *)

(** C8. For every catalog and every [top_k], the scorer called with a seed
    id that no row of the catalog carries returns the empty frame, without
    raising; in the aggregator's loop such a seed leaves the accumulated
    frame as it was. *)
Theorem unknown_seed_contributes_nothing
    (tid : Z) (track_df : list Track) (top_k : Z) :
  ~ In tid (map track_id track_df) ->
  scorer tid track_df top_k = Ok EmptyDataFrame
  /\ rows EmptyDataFrame = []
  /\ forall rest all_recs,
       collect (tid :: rest) track_df all_recs = collect rest track_df all_recs.
Proof.
  intro H. split; [now apply scorer_unknown|]. split; [reflexivity|].
  intros rest all_recs. simpl. rewrite scorer_unknown by assumption. simpl.
  now rewrite pd_concat_empty_r.
Qed.

(** C1. The aggregator called with no seed at all, or with seeds none of
    which is in the catalog, does not return an empty sequence: the loop
    leaves [all_recs] the column-less [pd.DataFrame()], [drop_duplicates]
    passes it on, and [sort_values(by='similarity')] raises KeyError. *)
Theorem favorites_without_known_seed_raises
    (fav_ids : list Z) (track_df : list Track) (top_k : Z) :
  (forall tid, In tid fav_ids -> ~ In tid (map track_id track_df)) ->
  favorites fav_ids track_df top_k = Raise KeyError.
Proof.
  intro H. unfold recommend_from_favorites.
  now rewrite collect_all_unknown.
Qed.

(** ** The scorer's output *)

(** C3. For every catalog and seed in it, every candidate (every row with
    another id) gets similarity 1.0 when its normalized genre and artist
    both equal the seed's, 0.7 when only the genres are equal, 0.3 when only
    the artists are, 0.0 otherwise; every row the scorer returns is such a
    candidate, with that similarity. Normalization is [clean_string]: the
    empty string for a missing value, else the text stripped of surrounding
    whitespace and lower-cased. *)
Theorem similarity_table
    (tid : Z) (track_df : list Track) (top_k : Z) (seed : Track) (out : DataFrame) :
  find (fun t => track_id t =? tid) track_df = Some seed ->
  scorer tid track_df top_k = Ok out ->
  let genre := clean_string (genre_top seed) in
  let artist := clean_string (artist_name seed) in
  (forall t,
     let c := score_row genre artist t in
     c_genre_top c = clean_string (genre_top t)
     /\ c_artist_name c = clean_string (artist_name t)
     /\ (c_genre_top c = genre -> c_artist_name c = artist ->
         similarity c = 1.0%float)
     /\ (c_genre_top c = genre -> c_artist_name c <> artist ->
         similarity c = 0.7%float)
     /\ (c_genre_top c <> genre -> c_artist_name c = artist ->
         similarity c = 0.3%float)
     /\ (c_genre_top c <> genre -> c_artist_name c <> artist ->
         similarity c = 0.0%float))
  /\ (forall c, In c (rows out) ->
        exists t, In t track_df /\ track_id t <> tid
                  /\ c = score_row genre artist t)
  /\ clean_string None = EmptyString
  /\ forall s, clean_string (Some s) = Str.lower (Str.strip s).
Proof.
  intros Hseed Hrun genre artist. split; [|split; [|split; reflexivity]].
  - intros t c. subst c. rewrite score_row_table. simpl.
    destruct (String.eqb_spec (clean_string (genre_top t)) genre),
             (String.eqb_spec (clean_string (artist_name t)) artist);
      repeat split; intros; try reflexivity; contradiction.
  - destruct (scorer_known _ _ _ _ _ Hseed Hrun) as (l & -> & _ & _ & Hl).
    exact Hl.
Qed.

(** C6. For every catalog, seed id and [top_k], the frame the scorer
    returns has no two rows with the same id and no row with the seed's id;
    it has at most [top_k + 3] rows, for every [top_k] from -3 on, hence for
    every positive [top_k], the values the scorer's contract admits. *)
Theorem scorer_unique_without_seed_bounded
    (tid : Z) (track_df : list Track) (top_k : Z) (out : DataFrame) :
  scorer tid track_df top_k = Ok out ->
  NoDup (ids out)
  /\ ~ In tid (ids out)
  /\ (0 <= top_k + 3 -> Z.of_nat (length (rows out)) <= top_k + 3).
Proof.
  intro Hrun. unfold ids.
  assert (Hseedless : ~ In tid (map c_track_id (rows out))).
  { rewrite in_map_iff. intros (c & Hid & Hc).
    now destruct (scorer_rows_of_candidates _ _ _ _ _ Hrun Hc). }
  split; [|split; [exact Hseedless|]].
  - destruct (find (fun t => track_id t =? tid) track_df) as [seed|] eqn:Hseed.
    + now destruct (scorer_known _ _ _ _ _ Hseed Hrun) as (l & -> & Hnd & _).
    + unfold recommend_based_on_genre_artist in Hrun. rewrite Hseed in Hrun.
      injection Hrun as <-. constructor.
  - intro Hk.
    destruct (find (fun t => track_id t =? tid) track_df) as [seed|] eqn:Hseed.
    + destruct (scorer_known _ _ _ _ _ Hseed Hrun) as (l & -> & _ & Hlen & _).
      now apply Hlen.
    + unfold recommend_based_on_genre_artist in Hrun. rewrite Hseed in Hrun.
      injection Hrun as <-. simpl. lia.
Qed.

(** ** The aggregator *)

(** C9. For every list of seed ids, catalog and [top_k], the history entry
    point returns what the favorites entry point returns, a raised error
    included. *)
Theorem watch_history_is_favorites
    (seed_ids : list Z) (track_df : list Track) (top_k : Z) :
  recommend_from_watch_history argsort_desc permutation seed_ids track_df top_k
  = favorites seed_ids track_df top_k.
Proof. reflexivity. Qed.

(** C10. Taking out of the seed list an occurrence of an id that occurs
    earlier in the list changes nothing in what the aggregator returns or
    raises: the rows the repeated seed adds are all dropped by
    [drop_duplicates]. *)
Theorem repeated_seed_is_redundant
    (before after : list Z) (s : Z) (track_df : list Track) (top_k : Z) :
  In s before ->
  favorites (before ++ s :: after) track_df top_k
  = favorites (before ++ after) track_df top_k.
Proof.
  intro Hs. unfold recommend_from_favorites.
  rewrite !collect_app.
  destruct (collect before track_df EmptyDataFrame) as [A|e] eqn:HA;
    simpl; [|reflexivity].
  destruct (collect_absorbs _ _ _ _ _ HA Hs) as (R & HR & Hsub & Hempty).
  rewrite HR. simpl.
  rewrite (collect_from after track_df (pd_concat A R)).
  rewrite (collect_from after track_df A).
  destruct (collect after track_df EmptyDataFrame) as [C|e]; simpl; [|reflexivity].
  now rewrite frame_drop_duplicates_absorb.
Qed.

(** C5, as the code has it. When the scorer returns the frame [R] for seed
    [s] with sub-budget 3 and [u] is not in the catalog, the aggregator
    called with the two seeds, in either order and for any [top_k], returns
    [R] deduplicated by id, sorted by similarity descending, and cut to
    [top_k] rows: the unknown seed adds nothing, and the scorer is called
    with [top_k = 3] whatever the caller's [top_k] is. *)
Theorem known_and_unknown_seed
    (s u : Z) (track_df : list Track) (top_k : Z) (R : list Cand) :
  ~ In u (map track_id track_df) ->
  scorer s track_df 3 = Ok (Frame R) ->
  favorites [s; u] track_df top_k
  = Ok (Frame (head top_k (sort_values argsort_desc (drop_duplicates R))))
  /\ favorites [u; s] track_df top_k
     = Ok (Frame (head top_k (sort_values argsort_desc (drop_duplicates R)))).
Proof.
  intros Hu Hs. unfold recommend_from_favorites. simpl.
  rewrite Hs, (scorer_unknown u track_df 3 Hu). simpl. auto.
Qed.

(** ** Under the sort's contract *)

Lemma Sorted_of_map {A B : Type} (R : B -> B -> Prop) (f : A -> B) (l : list A) :
  Sorted R (map f l) -> Sorted (fun x y => R (f x) (f y)) l.
Proof.
  induction l as [|x l IH]; intro H; [constructor|].
  simpl in H. inversion H as [|? ? Hs Hd]; subst.
  constructor; [auto|].
  destruct l; simpl in *; constructor. now inversion Hd.
Qed.

Hypothesis sort_ok : argsort_contract argsort_desc.

Lemma sort_values_Permutation (l : list Cand) :
  Permutation (sort_values argsort_desc l) l.
Proof.
  apply take_Permutation. destruct sort_ok as [Hperm _].
  specialize (Hperm (map similarity l)). now rewrite length_map in Hperm.
Qed.

Lemma sort_values_descending (l : list Cand) :
  (forall c, In c l -> is_score (similarity c)) ->
  Sorted by_similarity (sort_values argsort_desc l).
Proof.
  intro H. destruct sort_ok as [_ Hdesc].
  apply (Sorted_of_map ge_sim similarity). unfold sort_values.
  rewrite take_map. apply Hdesc.
  rewrite Forall_forall. intros x Hx. apply in_map_iff in Hx.
  destruct Hx as (c & <- & Hc). auto.
Qed.

(** C7. Whatever the seed ids, the catalog and [top_k], the frame the
    aggregator returns has no two rows with the same id, is ordered by
    similarity descending (each row's similarity is greater than or equal
    to the next row's), and has at most [top_k] rows, for every [top_k]
    that is not negative. *)
Theorem favorites_unique_sorted_bounded
    (fav_ids : list Z) (track_df : list Track) (top_k : Z) (out : DataFrame) :
  favorites fav_ids track_df top_k = Ok out ->
  NoDup (ids out)
  /\ Sorted by_similarity (rows out)
  /\ (0 <= top_k -> Z.of_nat (length (rows out)) <= top_k).
Proof.
  intro H. destruct (favorites_inv _ _ _ _ H) as (a & Ha & ->).
  unfold ids. simpl. split; [|split].
  - apply head_NoDup_map.
    eapply Permutation_NoDup; [|apply (drop_duplicates_NoDup a)].
    apply Permutation_map, Permutation_sym, sort_values_Permutation.
  - apply head_Sorted, sort_values_descending.
    intros c Hc. apply drop_duplicates_In in Hc.
    exact (collect_scores _ _ _ _ Ha Hc).
  - apply head_length.
Qed.

(** X17. Nothing is lost between deduplication and truncation: the
    aggregator's frame is the first [top_k] rows of a rearrangement of all
    the deduplicated accumulated rows that goes down in similarity. Which
    of two rows of equal similarity comes first is left to the sort. *)
Theorem favorites_sorts_deduplicated_rows
    (fav_ids : list Z) (track_df : list Track) (top_k : Z) (out : DataFrame) :
  favorites fav_ids track_df top_k = Ok out ->
  exists accumulated sorted,
    collect fav_ids track_df EmptyDataFrame = Ok (Frame accumulated)
    /\ Permutation sorted (drop_duplicates accumulated)
    /\ Sorted by_similarity sorted
    /\ rows out = head top_k sorted.
Proof.
  intro H. destruct (favorites_inv _ _ _ _ H) as (a & Ha & ->).
  exists a, (sort_values argsort_desc (drop_duplicates a)).
  split; [exact Ha|]. split; [apply sort_values_Permutation|].
  split; [|reflexivity].
  apply sort_values_descending. intros c Hc. apply drop_duplicates_In in Hc.
  exact (collect_scores _ _ _ _ Ha Hc).
Qed.

End Properties.

(** ** The two insertion sorts meet the sort's contract *)

Lemma scores_comparable (x y : float) :
  is_score x -> is_score y ->
  (PrimFloat.leb y x = false -> PrimFloat.leb x y = true)
  /\ (PrimFloat.ltb y x = true -> PrimFloat.leb y x = true)
  /\ (PrimFloat.ltb y x = false -> PrimFloat.leb x y = true).
Proof.
  unfold is_score.
  intros [ -> | [ -> | [ -> | -> ] ] ] [ -> | [ -> | [ -> | -> ] ] ]; vm_compute;
    repeat split; intro H; try reflexivity; discriminate H.
Qed.

Lemma insert_by_Permutation (before : float -> float -> bool)
    (p : nat * float) (l : list (nat * float)) :
  Permutation (insert_by before p l) (p :: l).
Proof.
  induction l as [|q r IH]; simpl; [reflexivity|].
  destruct (before (snd p) (snd q)); [reflexivity|].
  rewrite IH. apply perm_swap.
Qed.

Lemma insertion_Permutation (before : float -> float -> bool)
    (l : list (nat * float)) :
  Permutation (fold_right (insert_by before) [] l) l.
Proof.
  induction l as [|p l IH]; simpl; [reflexivity|].
  now rewrite insert_by_Permutation, IH.
Qed.

Lemma fst_combine_seq (keys : list float) (s : nat) :
  map fst (combine (seq s (length keys)) keys) = seq s (length keys).
Proof.
  revert s. induction keys as [|k keys IH]; intro s; simpl; [reflexivity|].
  now rewrite IH.
Qed.

Lemma combine_seq_nth (keys : list float) (s i : nat) (k : float) :
  In (i, k) (combine (seq s (length keys)) keys) ->
  (s <= i)%nat /\ nth_error keys (i - s) = Some k.
Proof.
  revert s. induction keys as [|k0 keys IH]; intros s H; simpl in H; [contradiction|].
  destruct H as [E|H].
  - injection E as <- <-. rewrite Nat.sub_diag. auto.
  - apply IH in H. destruct H as [Hle Hn]. split; [lia|].
    replace (i - s)%nat with (S (i - S s)) by lia. exact Hn.
Qed.

Lemma take_of_pairs (keys : list float) (pairs : list (nat * float)) :
  (forall i k, In (i, k) pairs -> nth_error keys i = Some k) ->
  take keys (map fst pairs) = map snd pairs.
Proof.
  induction pairs as [|[i k] r IH]; intro H; simpl; [reflexivity|].
  rewrite (H i k) by now left. simpl. f_equal.
  apply IH. intros j x Hj. apply H. now right.
Qed.

Lemma Sorted_to_map {A B : Type} (R : B -> B -> Prop) (f : A -> B) (l : list A) :
  Sorted (fun x y => R (f x) (f y)) l -> Sorted R (map f l).
Proof.
  induction 1 as [|x l Hs IH Hd]; simpl; constructor; [assumption|].
  destruct Hd; simpl; constructor. assumption.
Qed.

Section Insertion.

Variable before : float -> float -> bool.

(** [before x y] puts [x] first only if [x >= y], and otherwise [y >= x]. *)
Hypothesis before_ok : forall x y, is_score x -> is_score y ->
  (before x y = true -> ge_sim x y) /\ (before x y = false -> ge_sim y x).

Let by_key (a b : nat * float) : Prop := ge_sim (snd a) (snd b).

Lemma insert_by_Sorted (p : nat * float) (l : list (nat * float)) :
  is_score (snd p) -> Forall (fun q => is_score (snd q)) l ->
  Sorted by_key l -> Sorted by_key (insert_by before p l).
Proof.
  intros Hp Hl Hs. induction Hs as [|q r Hs IH Hd]; simpl.
  - repeat constructor.
  - inversion Hl as [|? ? Hq Hr]; subst.
    destruct (before_ok (snd p) (snd q) Hp Hq) as [Ht Hf].
    destruct (before (snd p) (snd q)) eqn:E.
    + constructor; [now constructor|]. constructor. now apply Ht.
    + constructor; [now apply IH|].
      destruct r as [|q' r]; simpl.
      * constructor. now apply Hf.
      * destruct (before (snd p) (snd q')); constructor;
          [now apply Hf|now inversion Hd].
Qed.

Lemma insertion_Sorted (l : list (nat * float)) :
  Forall (fun q => is_score (snd q)) l ->
  Sorted by_key (fold_right (insert_by before) [] l).
Proof.
  induction 1 as [|p l Hp Hl IH]; simpl; [constructor|].
  apply insert_by_Sorted; auto.
  rewrite Forall_forall in *. intros q Hq. apply Hl.
  eapply Permutation_in; [apply insertion_Permutation|exact Hq].
Qed.

Lemma argsort_by_contract : argsort_contract (argsort_by before).
Proof.
  split; intro keys; unfold argsort_by.
  - rewrite <- (fst_combine_seq keys 0) at 2.
    apply Permutation_map, insertion_Permutation.
  - intro Hkeys. unfold descending.
    rewrite take_of_pairs.
    + apply Sorted_to_map, insertion_Sorted.
      rewrite Forall_forall. intros [i k] Hin. simpl.
      apply combine_seq_nth in Hin. destruct Hin as [_ Hn].
      rewrite Forall_forall in Hkeys. eapply Hkeys, nth_error_In, Hn.
    + intros i k Hin.
      eapply Permutation_in in Hin; [|apply insertion_Permutation].
      apply combine_seq_nth in Hin. destruct Hin as [_ Hn].
      now rewrite Nat.sub_0_r in Hn.
Qed.

End Insertion.

Lemma argsort_stable_contract : argsort_contract argsort_stable.
Proof.
  apply argsort_by_contract. intros x y Hx Hy. unfold ge_sim.
  destruct (scores_comparable x y Hx Hy) as (Hle & _ & _). split; auto.
Qed.

Lemma argsort_rev_ties_contract : argsort_contract argsort_rev_ties.
Proof.
  apply argsort_by_contract. intros x y Hx Hy. unfold ge_sim.
  destruct (scores_comparable x y Hx Hy) as (_ & Hlt & Hge). split; auto.
Qed.

(** ** The statements at concrete tracks *)

Ltac absent_id := simpl; intuition discriminate.

Lemma unknown_seed_contributes_nothing_witness :
  ~ In 999 (map track_id scenario_catalog)
  /\ recommend_based_on_genre_artist argsort_stable shuffle_rev 999 scenario_catalog 5
     = Ok EmptyDataFrame.
Proof.
  assert (H : ~ In 999 (map track_id scenario_catalog)) by absent_id.
  split; [exact H|].
  exact (proj1 (unknown_seed_contributes_nothing
                  argsort_stable shuffle_rev 999 scenario_catalog 5 H)).
Defined.

Lemma favorites_without_known_seed_raises_witness :
  (forall tid, In tid [999; 1000] -> ~ In tid (map track_id scenario_catalog))
  /\ recommend_from_favorites argsort_stable shuffle_rev [999; 1000] scenario_catalog 5
     = Raise KeyError
  /\ recommend_from_favorites argsort_stable shuffle_rev [] scenario_catalog 5
     = Raise KeyError.
Proof.
  assert (H : forall tid, In tid [999; 1000] ->
                ~ In tid (map track_id scenario_catalog)).
  { intros tid [<-|[<-|[]]]; absent_id. }
  split; [exact H|]. split.
  - exact (favorites_without_known_seed_raises
             argsort_stable shuffle_rev [999; 1000] scenario_catalog 5 H).
  - apply favorites_without_known_seed_raises. intros tid [].
Defined.

Lemma similarity_table_witness :
  let seed := mkTrack 1 (Some "one"%string) (Some "Rock"%string) (Some "A"%string) in
  find (fun t => track_id t =? 1) seven_tracks = Some seed
  /\ exists out,
       recommend_based_on_genre_artist argsort_stable shuffle_rev 1 seven_tracks 3 = Ok out
       /\ ids out = [3; 5; 2; 7; 6; 4]
       /\ map similarity (rows out)
          = [0.3; 0.3; 0.0; 0.0; 0.0; 0.0]%float
       /\ (forall c, In c (rows out) ->
             exists t, In t seven_tracks /\ track_id t <> 1
                       /\ c = score_row "rock" "a" t)
       /\ similarity (score_row "rock" "a"
                        (mkTrack 8 None (Some " ROCK"%string) (Some "a "%string)))
          = 1.0%float.
Proof.
  intro seed. split; [reflexivity|].
  destruct (recommend_based_on_genre_artist
              argsort_stable shuffle_rev 1 seven_tracks 3) as [out|e] eqn:Hrun;
    [|vm_compute in Hrun; discriminate Hrun].
  exists out. split; [reflexivity|].
  assert (Hout : ids out = [3; 5; 2; 7; 6; 4]
                 /\ map similarity (rows out) = [0.3; 0.3; 0.0; 0.0; 0.0; 0.0]%float).
  { vm_compute in Hrun. injection Hrun as <-. split; reflexivity. }
  destruct Hout as [Hids Hsims]. split; [exact Hids|]. split; [exact Hsims|].
  destruct (similarity_table argsort_stable shuffle_rev 1 seven_tracks 3 seed out
              eq_refl Hrun) as (Hall & Hrows & _).
  split; [exact Hrows|].
  destruct (Hall (mkTrack 8 None (Some " ROCK"%string) (Some "a "%string)))
    as (_ & _ & Hboth & _).
  apply Hboth; reflexivity.
Defined.

Lemma scorer_unique_without_seed_bounded_witness :
  exists out,
    recommend_based_on_genre_artist argsort_stable shuffle_rev 1 seven_tracks 3 = Ok out
    /\ ids out = [3; 5; 2; 7; 6; 4]
    /\ NoDup (ids out)
    /\ ~ In 1 (ids out)
    /\ Z.of_nat (length (rows out)) <= 3 + 3.
Proof.
  destruct (recommend_based_on_genre_artist
              argsort_stable shuffle_rev 1 seven_tracks 3) as [out|e] eqn:Hrun;
    [|vm_compute in Hrun; discriminate Hrun].
  exists out. split; [reflexivity|].
  destruct (scorer_unique_without_seed_bounded
              argsort_stable shuffle_rev 1 seven_tracks 3 out Hrun)
    as (Hnd & Hseed & Hlen).
  split; [|split; [exact Hnd|split; [exact Hseed|apply Hlen; lia]]].
  vm_compute in Hrun. injection Hrun as <-. reflexivity.
Defined.

Lemma repeated_seed_is_redundant_witness :
  In 1 [1; 2]
  /\ recommend_from_favorites argsort_stable shuffle_rev ([1; 2] ++ 1 :: [999]) seven_tracks 4
     = recommend_from_favorites argsort_stable shuffle_rev ([1; 2] ++ [999]) seven_tracks 4
  /\ result_ids (recommend_from_favorites argsort_stable shuffle_rev
                   ([1; 2] ++ [999]) seven_tracks 4)
     = Ok [3; 5; 2; 7].
Proof.
  assert (H : In 1 [1; 2]) by (now left).
  split; [exact H|]. split; [|vm_compute; reflexivity].
  exact (repeated_seed_is_redundant argsort_stable shuffle_rev
           [1; 2] [999] 1 seven_tracks 4 H).
Defined.

Lemma known_and_unknown_seed_witness :
  ~ In 999 (map track_id six_tracks)
  /\ exists R,
       recommend_based_on_genre_artist argsort_stable shuffle_rev 1 six_tracks 3
       = Ok (Frame R)
       /\ recommend_from_favorites argsort_stable shuffle_rev [1; 999] six_tracks 5
          = Ok (Frame (head 5 (sort_values argsort_stable (drop_duplicates R))))
       /\ map c_track_id (head 5 (sort_values argsort_stable (drop_duplicates R)))
          = [2; 3; 4; 5; 6].
Proof.
  assert (H : ~ In 999 (map track_id six_tracks)) by absent_id.
  split; [exact H|].
  destruct (recommend_based_on_genre_artist
              argsort_stable shuffle_rev 1 six_tracks 3) as [[|R]|e] eqn:Hrun;
    try (vm_compute in Hrun; discriminate Hrun).
  exists R. split; [reflexivity|]. split.
  - exact (proj1 (known_and_unknown_seed argsort_stable shuffle_rev
                    1 999 six_tracks 5 R H Hrun)).
  - vm_compute in Hrun. injection Hrun as <-. vm_compute. reflexivity.
Defined.

Lemma favorites_unique_sorted_bounded_witness :
  argsort_contract argsort_stable
  /\ exists out,
       recommend_from_favorites argsort_stable shuffle_rev [1; 2; 1; 999] seven_tracks 4
       = Ok out
       /\ ids out = [3; 5; 2; 7]
       /\ NoDup (ids out)
       /\ Sorted by_similarity (rows out)
       /\ Z.of_nat (length (rows out)) <= 4.
Proof.
  split; [exact argsort_stable_contract|].
  destruct (recommend_from_favorites
              argsort_stable shuffle_rev [1; 2; 1; 999] seven_tracks 4)
    as [out|e] eqn:Hrun; [|vm_compute in Hrun; discriminate Hrun].
  exists out. split; [reflexivity|].
  destruct (favorites_unique_sorted_bounded argsort_stable shuffle_rev
              argsort_stable_contract [1; 2; 1; 999] seven_tracks 4 out Hrun)
    as (Hnd & Hsorted & Hlen).
  split; [|split; [exact Hnd|split; [exact Hsorted|apply Hlen; lia]]].
  vm_compute in Hrun. injection Hrun as <-. reflexivity.
Defined.

Lemma favorites_sorts_deduplicated_rows_witness :
  argsort_contract argsort_rev_ties
  /\ exists out accumulated sorted,
       recommend_from_favorites argsort_rev_ties shuffle_rev [1; 2; 1; 999] seven_tracks 40
       = Ok out
       /\ ids out = [3; 5; 1; 4; 6; 7]
       /\ accumulate argsort_rev_ties shuffle_rev [1; 2; 1; 999] seven_tracks EmptyDataFrame
          = Ok (Frame accumulated)
       /\ Permutation sorted (drop_duplicates accumulated)
       /\ Sorted by_similarity sorted
       /\ rows out = head 40 sorted.
Proof.
  split; [exact argsort_rev_ties_contract|].
  destruct (recommend_from_favorites
              argsort_rev_ties shuffle_rev [1; 2; 1; 999] seven_tracks 40)
    as [out|e] eqn:Hrun; [|vm_compute in Hrun; discriminate Hrun].
  destruct (favorites_sorts_deduplicated_rows argsort_rev_ties shuffle_rev
              argsort_rev_ties_contract [1; 2; 1; 999] seven_tracks 40 out Hrun)
    as (accumulated & sorted & Hacc & Hperm & Hsorted & Hout).
  exists out, accumulated, sorted.
  split; [reflexivity|]. split; [|auto].
  vm_compute in Hrun. injection Hrun as <-. reflexivity.
Defined.

(** ** Where the specification and the code part *)

(** The sort's contract does not fix the order of equal similarities.
    [argsort_rev_ties] meets it, and with it seed 1 over [three_tracks]
    accumulates tracks 3 and 2, in this order and both with similarity 0.0,
    and the aggregator returns them as 2, 3, where a stable sort gives
    3, 2. So that order cannot be derived from the contract: in a run it
    is what numpy's argsort kernel makes of the keys. *)
Lemma ties_not_kept_in_accumulation_order :
  argsort_contract argsort_rev_ties
  /\ exists accumulated out,
       accumulate argsort_rev_ties shuffle_rev [1] three_tracks EmptyDataFrame
       = Ok (Frame accumulated)
       /\ recommend_from_favorites argsort_rev_ties shuffle_rev [1] three_tracks 10
          = Ok out
       /\ map c_track_id (drop_duplicates accumulated) = [3; 2]
       /\ map similarity (drop_duplicates accumulated) = [0.0; 0.0]%float
       /\ map c_track_id (head 10 (stable_sort_desc (drop_duplicates accumulated)))
          = [3; 2]
       /\ ids out = [2; 3].
Proof.
  split; [exact argsort_rev_ties_contract|].
  do 2 eexists. split; [vm_compute; reflexivity|].
  split; [vm_compute; reflexivity|].
  repeat split; vm_compute; reflexivity.
Qed.

(** C5, as the specification states it, fails twice. On the catalog of
    the scenario the scorer raises ValueError for seed 1 (see C2), and so
    does the aggregator: no sequence is returned. Where the scorer does
    return, as over [six_tracks], its frame deduplicated and cut to 5 rows
    lists tracks 2, 3, 4, 6, 5, with similarities 0.3, 0.3, 0.3, 0.0, 0.3;
    the aggregator sorts before it cuts and returns 2, 3, 4, 5, 6. *)
Lemma known_and_unknown_seed_differs :
  (forall argsort_desc permutation,
      recommend_based_on_genre_artist argsort_desc permutation 1 scenario_catalog 3
      = Raise ValueError
      /\ recommend_from_favorites argsort_desc permutation [1; 999] scenario_catalog 5
         = Raise ValueError)
  /\ argsort_contract argsort_stable
  /\ exists R out,
       recommend_based_on_genre_artist argsort_stable shuffle_rev 1 six_tracks 3
       = Ok (Frame R)
       /\ recommend_from_favorites argsort_stable shuffle_rev [1; 999] six_tracks 5
          = Ok out
       /\ map c_track_id (head 5 (drop_duplicates R)) = [2; 3; 4; 6; 5]
       /\ map similarity (head 5 (drop_duplicates R)) = [0.3; 0.3; 0.3; 0.0; 0.3]%float
       /\ ids out = [2; 3; 4; 5; 6].
Proof.
  split; [|split; [exact argsort_stable_contract|]].
  - intros argsort_desc permutation.
    assert (H : recommend_based_on_genre_artist argsort_desc permutation
                  1 scenario_catalog 3 = Raise ValueError).
    { exact (scorer_outcome argsort_desc permutation 1 scenario_catalog 3
               (mkTrack 1 None (Some "Rock"%string) (Some "A"%string)) eq_refl). }
    split; [exact H|].
    unfold recommend_from_favorites. cbn [accumulate]. now rewrite H.
  - do 2 eexists. split; [vm_compute; reflexivity|].
    split; [vm_compute; reflexivity|].
    repeat split; vm_compute; reflexivity.
Qed.

(** * Further properties of the code *)

(** ** [clean_string] *)

Lemma to_lower_not_upper (c : ascii) : is_upper (Str.to_lower c) = false.
Proof. destruct c as [[] [] [] [] [] [] [] []]; reflexivity. Qed.

Lemma lower_not_upper (s : string) (c : ascii) :
  In c (list_ascii_of_string (Str.lower s)) -> is_upper c = false.
Proof.
  induction s as [|d s IH]; simpl; [contradiction|].
  intros [<-|H]; [apply to_lower_not_upper|auto].
Qed.

Lemma lstrip_all_space (s : string) :
  all_space s = true -> Str.lstrip s = EmptyString.
Proof.
  unfold all_space. induction s as [|c s IH]; simpl; [reflexivity|].
  intro H. apply andb_prop in H. destruct H as [Hc Hs]. rewrite Hc. auto.
Qed.

Lemma rstrip_all_space (s : string) :
  all_space s = true -> Str.rstrip s = EmptyString.
Proof.
  unfold all_space. induction s as [|c s IH]; simpl; [reflexivity|].
  intro H. apply andb_prop in H. destruct H as [Hc Hs]. now rewrite IH, Hc.
Qed.

Lemma lstrip_padding (pre s : string) :
  all_space pre = true -> Str.lstrip (pre ++ s) = Str.lstrip s.
Proof.
  unfold all_space. induction pre as [|c pre IH]; simpl; [reflexivity|].
  intro H. apply andb_prop in H. destruct H as [Hc Hs]. rewrite Hc. auto.
Qed.

Lemma rstrip_padding (s post : string) :
  all_space post = true -> Str.rstrip (s ++ post) = Str.rstrip s.
Proof.
  intro H. induction s as [|c s IH]; simpl.
  - now apply rstrip_all_space.
  - now rewrite IH.
Qed.

Lemma strip_padding (pre s post : string) :
  all_space pre = true -> all_space post = true ->
  Str.strip (pre ++ s ++ post) = Str.strip s.
Proof.
  intros Hpre Hpost. unfold Str.strip. rewrite lstrip_padding by assumption.
  induction s as [|c s IH]; simpl.
  - now rewrite lstrip_all_space.
  - destruct (Str.is_space c); [exact IH|].
    change (String c (s ++ post)) with (String c s ++ post)%string.
    now apply rstrip_padding.
Qed.

Lemma blank_clean_string (val : option string) :
  blank val = true -> clean_string val = EmptyString.
Proof.
  destruct val as [s|]; simpl; [|reflexivity].
  intro H. unfold Str.strip. now rewrite lstrip_all_space.
Qed.

Lemma to_lower_ascii (c : ascii) :
  (N_of_ascii (Str.to_lower c) <? 128)%N = (N_of_ascii c <? 128)%N.
Proof. destruct c as [[] [] [] [] [] [] [] []]; reflexivity. Qed.

Lemma ascii_text_lower (s : string) :
  ascii_text (Str.lower s) = ascii_text s.
Proof.
  unfold ascii_text. induction s as [|c s IH]; simpl; [reflexivity|].
  now rewrite to_lower_ascii, IH.
Qed.

Lemma ascii_text_lstrip (s : string) :
  ascii_text s = true -> ascii_text (Str.lstrip s) = true.
Proof.
  unfold ascii_text. induction s as [|c s IH]; simpl; [trivial|].
  intro H. destruct (Str.is_space c); [|exact H].
  apply andb_prop in H. now apply IH.
Qed.

Lemma ascii_text_rstrip (s : string) :
  ascii_text s = true -> ascii_text (Str.rstrip s) = true.
Proof.
  unfold ascii_text. induction s as [|c s IH]; simpl; [trivial|].
  intro H. apply andb_prop in H. destruct H as [Hc Hs].
  specialize (IH Hs). destruct (Str.rstrip s) as [|d t].
  - destruct (Str.is_space c); simpl; [reflexivity|now rewrite Hc].
  - simpl in *. now rewrite Hc, IH.
Qed.

Lemma ascii_cell_clean_string (val : option string) :
  ascii_cell val = true -> ascii_text (clean_string val) = true.
Proof.
  destruct val as [s|]; simpl; [|reflexivity].
  intro H. rewrite ascii_text_lower. unfold Str.strip.
  now apply ascii_text_rstrip, ascii_text_lstrip.
Qed.

(** X1. For every cell that is missing or holds ASCII text, the cleaned
    text is again ASCII text and a fixed point of [clean_string]; it
    neither starts nor ends with a whitespace character and holds no
    upper-case letter. *)
Theorem clean_string_normal_form (val : option string) :
  ascii_cell val = true ->
  let r := clean_string val in
  ascii_text r = true
  /\ clean_string (Some r) = r
  /\ (forall c rest, r = String c rest -> Str.is_space c = false)
  /\ (forall c init, r = (init ++ String c EmptyString)%string ->
        Str.is_space c = false)
  /\ (forall c, In c (list_ascii_of_string r) -> is_upper c = false).
Proof.
  intros Hascii r. split; [now apply ascii_cell_clean_string|].
  split; [apply clean_string_idempotent|].
  destruct val as [s|]; subst r; simpl.
  - assert (Hl : Str.lstrip (Str.lower (Str.strip s)) = Str.lower (Str.strip s)).
    { rewrite StrFacts.lstrip_lower. f_equal. unfold Str.strip.
      apply StrFacts.lstrip_rstrip, StrFacts.lstrip_idempotent. }
    assert (Hr : Str.rstrip (Str.lower (Str.strip s)) = Str.lower (Str.strip s)).
    { rewrite StrFacts.rstrip_lower. f_equal. unfold Str.strip.
      apply StrFacts.rstrip_idempotent. }
    split; [|split].
    + intros c rest E. rewrite E in Hl. exact (StrFacts.lstrip_head _ _ _ Hl).
    + intros c init E. rewrite E in Hr. exact (StrFacts.rstrip_last _ _ _ Hr).
    + apply lower_not_upper.
  - split; [|split].
    + discriminate.
    + intros c init E. destruct init; discriminate E.
    + contradiction.
Qed.

(** X2. On ASCII text, whitespace around a text and the case of its
    letters do not change what [clean_string] gives: an ASCII text padded
    with whitespace on both sides is cleaned like any ASCII text that
    differs from it in letter case only. *)
Theorem clean_string_ignores_padding_and_case (pre s post s' : string) :
  ascii_text s = true -> ascii_text s' = true ->
  all_space pre = true -> all_space post = true ->
  Str.lower s = Str.lower s' ->
  clean_string (Some (pre ++ s ++ post)%string) = clean_string (Some s').
Proof.
  intros _ _ Hpre Hpost Hcase. simpl.
  rewrite strip_padding by assumption.
  now rewrite <- !StrFacts.strip_lower, Hcase.
Qed.

(** X3. A missing cell and a cell of whitespace only are cleaned to the
    same empty text, so a candidate without a genre is scored as a genre
    match for a seed without a genre: its similarity is 0.7 or 1.0. *)
Theorem blank_genres_match (seed t : Track) (artist : string) :
  blank (genre_top seed) = true -> blank (genre_top t) = true ->
  let c := score_row (clean_string (genre_top seed)) artist t in
  c_genre_top c = EmptyString
  /\ (similarity c = 0.7%float \/ similarity c = 1.0%float).
Proof.
  intros Hs Ht c. subst c.
  rewrite score_row_table. unfold score_row. simpl.
  rewrite (blank_clean_string _ Hs), (blank_clean_string _ Ht). simpl.
  split; [reflexivity|].
  destruct (String.eqb (clean_string (artist_name t)) artist); auto.
Qed.

(** ** The scorer *)

Lemma scores_transitive (x y z : float) :
  is_score x -> is_score y -> is_score z ->
  ge_sim x y -> ge_sim y z -> ge_sim x z.
Proof.
  unfold is_score, ge_sim.
  intros [ -> | [ -> | [ -> | -> ] ] ] [ -> | [ -> | [ -> | -> ] ] ]
         [ -> | [ -> | [ -> | -> ] ] ]; vm_compute; intros H1 H2;
    try reflexivity; try discriminate H1; discriminate H2.
Qed.

Lemma Sorted_scores_strongly (l : list Cand) :
  (forall c, In c l -> is_score (similarity c)) ->
  Sorted by_similarity l -> StronglySorted by_similarity l.
Proof.
  intros Hsc Hs. induction Hs as [|a l Hs IH Hd]; constructor.
  - apply IH. intros c Hc. apply Hsc. now right.
  - assert (IHl : StronglySorted by_similarity l).
    { apply IH. intros c Hc. apply Hsc. now right. }
    destruct Hd as [|b l Hab]; constructor; [exact Hab|].
    inversion IHl as [|? ? _ Hall]; subst.
    rewrite Forall_forall in *. intros c Hc.
    apply (scores_transitive _ (similarity b)); auto.
    + apply Hsc. now left.
    + apply Hsc. right. now left.
    + apply Hsc. right. now right.
    + exact (Hall c Hc).
Qed.

Lemma StronglySorted_app_dominates (l1 l2 : list Cand) :
  StronglySorted by_similarity (l1 ++ l2) ->
  forall a c, In a l1 -> In c l2 -> by_similarity a c.
Proof.
  induction l1 as [|x l1 IH]; intros H a c Ha Hc; [contradiction|].
  simpl in H. inversion H as [|? ? Hs Hall]; subst.
  destruct Ha as [->|Ha]; [|eauto].
  rewrite Forall_forall in Hall. apply Hall, in_or_app. now right.
Qed.

Lemma kept_tracks_unique (keep : Track -> bool) (track_df : list Track) :
  NoDup (map track_id track_df) ->
  NoDup (map track_id (filter keep track_df)).
Proof.
  induction track_df as [|t rest IH]; simpl; [trivial|].
  rewrite NoDup_cons_iff. intros [Hfresh Hrest].
  destruct (keep t); simpl; [|now apply IH].
  apply NoDup_cons; [|now apply IH].
  contradict Hfresh. apply in_map_iff in Hfresh.
  destruct Hfresh as (u & Hid & Hu). apply filter_In in Hu.
  rewrite <- Hid. apply in_map. tauto.
Qed.

Lemma candidates_for_ids (tid : Z) (seed : Track) (track_df : list Track) :
  map c_track_id (candidates_for tid seed track_df)
  = map track_id (filter (fun t => negb (track_id t =? tid)) track_df).
Proof. unfold candidates_for. rewrite map_map. reflexivity. Qed.

Lemma candidates_for_NoDup (tid : Z) (seed : Track) (track_df : list Track) :
  NoDup (map track_id track_df) ->
  NoDup (map c_track_id (candidates_for tid seed track_df)).
Proof.
  intro H. rewrite candidates_for_ids. now apply kept_tracks_unique.
Qed.


(** Rows with fresh, pairwise different ids all survive, and are
    remembered. *)
Lemma drop_duplicates_from_keep (seen : list Z) (a d : list Cand) :
  NoDup (map c_track_id a) ->
  (forall c, In c a -> ~ In (c_track_id c) seen) ->
  drop_duplicates_from seen (a ++ d)
  = a ++ drop_duplicates_from (rev (map c_track_id a) ++ seen) d.
Proof.
  revert seen. induction a as [|x a IH]; intros seen Hnd Hfresh; simpl;
    [reflexivity|].
  inversion Hnd as [|? ? Hx Ha]; subst.
  assert (E : existsb (Z.eqb (c_track_id x)) seen = false).
  { destruct (existsb _ seen) eqn:E; [|reflexivity].
    apply seen_spec in E. exfalso. apply (Hfresh x); auto. now left. }
  rewrite E. f_equal. rewrite IH.
  - now rewrite <- app_assoc.
  - exact Ha.
  - intros c Hc [Hin|Hin].
    + apply Hx. rewrite Hin. now apply in_map.
    + apply (Hfresh c); auto. now right.
Qed.

Lemma head_nonneg {A : Type} (n : Z) (l : list A) :
  0 <= n -> head n l = firstn (Z.to_nat n) l.
Proof.
  intro H. unfold head. destruct (Z.leb_spec 0 n); [reflexivity|lia].
Qed.

Section ScorerFacts.

Variable argsort_desc : list float -> list nat.
Variable permutation : nat -> list nat.

Local Abbreviation scorer := (recommend_based_on_genre_artist argsort_desc permutation).

Lemma scorer_unfold (tid : Z) (track_df : list Track) (top_k : Z) (seed : Track) :
  find (fun t => track_id t =? tid) track_df = Some seed ->
  scorer tid track_df top_k
  = (diverse <- sample permutation
                  (Nat.min 5 (length (candidates_for tid seed track_df)))
                  (other_genre seed (candidates_for tid seed track_df)) ;;
     Ok (Frame (head (top_k + 3)
                  (drop_duplicates
                     (head top_k
                        (head (top_k * 2)
                           (sort_values argsort_desc
                              (candidates_for tid seed track_df)))
                      ++ diverse))))).
Proof.
  intro H. unfold recommend_based_on_genre_artist. now rewrite H.
Qed.

(** X4. With the seed in the catalog the scorer returns a frame exactly
    when the candidates of another genre are at least min(5, number of
    candidates), and raises ValueError exactly when they are fewer; it
    never raises anything else, and five candidates of another genre are
    always enough. *)
Theorem scorer_returns_iff
    (tid : Z) (track_df : list Track) (top_k : Z) (seed : Track) :
  find (fun t => track_id t =? tid) track_df = Some seed ->
  let candidates := candidates_for tid seed track_df in
  let others := other_genre seed candidates in
  ((exists l, scorer tid track_df top_k = Ok (Frame l))
   <-> (Nat.min 5 (length candidates) <= length others)%nat)
  /\ (scorer tid track_df top_k = Raise ValueError
      <-> (length others < Nat.min 5 (length candidates))%nat)
  /\ (forall e, scorer tid track_df top_k = Raise e -> e = ValueError)
  /\ ((5 <= length others)%nat ->
      exists l, scorer tid track_df top_k = Ok (Frame l)).
Proof.
  intros Hseed candidates others.
  rewrite (scorer_unfold _ _ _ _ Hseed). fold candidates. fold others.
  unfold sample.
  destruct (Nat.ltb_spec (length others) (Nat.min 5 (length candidates)))
    as [Hlt|Hge]; cbn [bind].
  - split; [|split; [|split]].
    + split; [intros [l Hl]; discriminate Hl|intro; exfalso; lia].
    + tauto.
    + now intros e [= <-].
    + intro. exfalso. lia.
  - split; [|split; [|split]].
    + split; eauto.
    + split; [discriminate|intro; exfalso; lia].
    + discriminate.
    + eauto.
Qed.

Hypothesis sort_ok : argsort_contract argsort_desc.

(** The shape of a returned frame over a catalog with unique ids. *)
Lemma scorer_shape (tid : Z) (track_df : list Track) (top_k : Z)
    (seed : Track) (out : DataFrame) :
  NoDup (map track_id track_df) ->
  find (fun t => track_id t =? tid) track_df = Some seed ->
  0 <= top_k ->
  scorer tid track_df top_k = Ok out ->
  let candidates := candidates_for tid seed track_df in
  let ranked := sort_values argsort_desc candidates in
  exists picks,
    rows out = firstn (Z.to_nat top_k) ranked ++ picks
    /\ (length picks <= 3)%nat
    /\ (forall c, In c picks -> In c (other_genre seed candidates))
    /\ firstn (Z.to_nat top_k) (rows out) = firstn (Z.to_nat top_k) ranked.
Proof.
  intros Hnd Hseed Hk Hrun candidates ranked.
  rewrite (scorer_unfold _ _ _ _ Hseed) in Hrun.
  fold candidates in Hrun. fold ranked in Hrun.
  destruct (sample _ _ _) as [diverse|e] eqn:Hs; simpl in Hrun; [|discriminate].
  injection Hrun as <-. simpl.
  rewrite !head_nonneg by lia.
  rewrite firstn_firstn.
  replace (Nat.min (Z.to_nat top_k) (Z.to_nat (top_k * 2))) with (Z.to_nat top_k) by lia.
  set (n := Z.to_nat top_k). set (A := firstn n ranked).
  replace (Z.to_nat (top_k + 3)) with (n + 3)%nat by lia.
  assert (Hperm : Permutation ranked candidates).
  { apply take_Permutation. destruct sort_ok as [Hp _].
    specialize (Hp (map similarity candidates)). now rewrite length_map in Hp. }
  assert (HndR : NoDup (map c_track_id ranked)).
  { eapply Permutation_NoDup;
      [apply Permutation_map, Permutation_sym, Hperm|].
    now apply candidates_for_NoDup. }
  assert (HndA : NoDup (map c_track_id A)).
  { unfold A. rewrite <- firstn_map. now apply firstn_NoDup. }
  unfold drop_duplicates.
  rewrite drop_duplicates_from_keep by (auto; intros c _ []).
  rewrite app_nil_r.
  set (D := drop_duplicates_from (rev (map c_track_id A)) diverse).
  assert (HlenA : (length A <= n)%nat) by (unfold A; apply firstn_le_length).
  rewrite firstn_app, (firstn_all2 (n := (n + 3)%nat) A) by lia.
  assert (HD : forall c, In c D ->
                 In c (other_genre seed candidates)
                 /\ ~ In (c_track_id c) (map c_track_id A)).
  { intros c Hc. apply drop_duplicates_from_In in Hc. destruct Hc as [Hin Hfresh].
    split.
    - unfold sample in Hs.
      destruct (length (other_genre seed candidates) <? _)%nat; [discriminate|].
      injection Hs as <-. now apply take_In in Hin.
    - intro Hid. apply Hfresh. now apply -> in_rev. }
  exists (firstn (n + 3 - length A) D). split; [reflexivity|].
  assert (Hcase : (length A = n \/ D = [])%nat).
  { destruct (Nat.eq_dec (length A) n) as [|Hne]; [now left|right].
    assert (HA : A = ranked).
    { unfold A. apply firstn_all2. unfold A in *.
      rewrite length_firstn in *. lia. }
    destruct D as [|c D'] eqn:ED; [reflexivity|exfalso].
    destruct (HD c (or_introl eq_refl)) as [Hin Hfresh].
    apply Hfresh, in_map. rewrite HA.
    eapply Permutation_in; [apply Permutation_sym, Hperm|].
    unfold other_genre in Hin. apply filter_In in Hin. tauto. }
  split; [|split].
  - destruct Hcase as [E| ->].
    + rewrite E. replace (n + 3 - n)%nat with 3%nat by lia.
      apply firstn_le_length.
    + rewrite firstn_nil. simpl. lia.
  - intros c Hc. apply firstn_In in Hc. now apply HD.
  - destruct Hcase as [E| ->].
    + rewrite firstn_app, E, Nat.sub_diag, firstn_O, app_nil_r.
      apply firstn_all2. lia.
    + rewrite firstn_nil, app_nil_r. apply firstn_all2. lia.
Qed.


(** X6. Under the same conditions the first [top_k] rows of a returned
    frame are a best selection: no candidate left out of them has a higher
    similarity than one of them. *)
Theorem scorer_top_is_best
    (tid : Z) (track_df : list Track) (top_k : Z) (seed : Track) (out : DataFrame) :
  NoDup (map track_id track_df) ->
  find (fun t => track_id t =? tid) track_df = Some seed ->
  0 <= top_k ->
  scorer tid track_df top_k = Ok out ->
  let top := firstn (Z.to_nat top_k) (rows out) in
  forall a c,
    In a top ->
    In c (candidates_for tid seed track_df) ->
    ~ In (c_track_id c) (map c_track_id top) ->
    ge_sim (similarity a) (similarity c).
Proof.
  intros Hnd Hseed Hk Hrun top a c Ha Hc Hout.
  destruct (scorer_shape _ _ _ _ _ Hnd Hseed Hk Hrun) as (picks & _ & _ & _ & Htop).
  subst top. rewrite Htop in *.
  set (candidates := candidates_for tid seed track_df) in *.
  set (ranked := sort_values argsort_desc candidates) in *.
  assert (Hscores : forall x, In x candidates -> is_score (similarity x)).
  { intros x Hx. unfold candidates, candidates_for in Hx.
    apply in_map_iff in Hx. destruct Hx as (t & <- & _). apply score_row_is_score. }
  assert (Hperm : Permutation ranked candidates).
  { apply take_Permutation. destruct sort_ok as [Hp _].
    specialize (Hp (map similarity candidates)). now rewrite length_map in Hp. }
  assert (Hsorted : StronglySorted by_similarity ranked).
  { apply Sorted_scores_strongly.
    - intros x Hx. apply Hscores. eapply Permutation_in; [exact Hperm|exact Hx].
    - apply (Sorted_of_map ge_sim similarity). unfold ranked, sort_values.
      rewrite take_map. destruct sort_ok as [_ Hd]. apply Hd.
      rewrite Forall_forall. intros x Hx. apply in_map_iff in Hx.
      destruct Hx as (y & <- & Hy). auto. }
  rewrite <- (firstn_skipn (Z.to_nat top_k) ranked) in Hsorted.
  apply (StronglySorted_app_dominates _ _ Hsorted a c Ha).
  assert (Hin : In c ranked).
  { eapply Permutation_in; [apply Permutation_sym, Hperm|exact Hc]. }
  rewrite <- (firstn_skipn (Z.to_nat top_k) ranked) in Hin.
  apply in_app_or in Hin. destruct Hin as [Hin|Hin]; [|exact Hin].
  exfalso. apply Hout. now apply in_map.
Qed.

End ScorerFacts.

(** ** The aggregator *)


Section AggregatorFacts.

Variable argsort_desc : list float -> list nat.
Variable permutation : nat -> list nat.

Local Abbreviation scorer := (recommend_based_on_genre_artist argsort_desc permutation).
Local Abbreviation favorites := (recommend_from_favorites argsort_desc permutation).
Local Abbreviation collect := (accumulate argsort_desc permutation).

Lemma scorer_raises_ValueError (tid : Z) (track_df : list Track) (top_k : Z) (e : exn) :
  scorer tid track_df top_k = Raise e -> e = ValueError.
Proof.
  unfold recommend_based_on_genre_artist.
  destruct (find _ track_df); [|discriminate]. cbv zeta. unfold sample.
  destruct (_ <? _)%nat; cbn [bind]; [|discriminate].
  now intros [= <-].
Qed.

Lemma scorer_frame_of_known (tid : Z) (track_df : list Track) (top_k : Z) (R : DataFrame) :
  In tid (map track_id track_df) ->
  scorer tid track_df top_k = Ok R -> exists l, R = Frame l.
Proof.
  intros Hin Hrun. destruct (find_track_known _ _ Hin) as [seed Hseed].
  destruct (scorer_known _ _ _ _ _ _ _ Hseed Hrun) as (l & -> & _). eauto.
Qed.


Lemma collect_raises (fav_ids : list Z) (track_df : list Track) (X : DataFrame) (e : exn) :
  collect fav_ids track_df X = Raise e ->
  exists s, In s fav_ids /\ scorer s track_df 3 = Raise e.
Proof.
  revert X. induction fav_ids as [|tid rest IH]; intros X H; simpl in H;
    [discriminate|].
  destruct (scorer tid track_df 3) as [recs|e'] eqn:E; cbn [bind] in H.
  - destruct (IH _ H) as (s & Hs & Hr). exists s. split; [now right|exact Hr].
  - injection H as <-. exists tid. split; [now left|exact E].
Qed.

Lemma collect_returns (fav_ids : list Z) (track_df : list Track) (X : DataFrame) :
  (forall s, In s fav_ids -> exists R, scorer s track_df 3 = Ok R) ->
  exists A, collect fav_ids track_df X = Ok A.
Proof.
  revert X. induction fav_ids as [|tid rest IH]; intros X H; simpl; [eauto|].
  destruct (H tid (or_introl eq_refl)) as [R ->]. cbn [bind].
  apply IH. intros s Hs. apply H. now right.
Qed.

Lemma collect_frame_has_known_seed (fav_ids : list Z) (track_df : list Track) (a : list Cand) :
  collect fav_ids track_df EmptyDataFrame = Ok (Frame a) ->
  exists s, In s fav_ids /\ In s (map track_id track_df).
Proof.
  induction fav_ids as [|tid rest IH]; intro H; simpl in H; [discriminate|].
  destruct (in_dec Z.eq_dec tid (map track_id track_df)) as [Hin|Hout].
  - exists tid. split; [now left|exact Hin].
  - rewrite (scorer_unknown _ _ _ _ _ Hout) in H. cbn [bind pd_concat] in H.
    destruct (IH H) as (s & Hs & Hk). exists s. split; [now right|exact Hk].
Qed.

Lemma collect_empty_all_unknown (fav_ids : list Z) (track_df : list Track) (s : Z) :
  collect fav_ids track_df EmptyDataFrame = Ok EmptyDataFrame ->
  In s fav_ids -> ~ In s (map track_id track_df).
Proof.
  intros H Hs Hin.
  destruct (collect_absorbs _ _ _ _ _ _ _ H Hs) as (R & HR & _ & Hempty).
  destruct (scorer_frame_of_known _ _ _ _ Hin HR) as [l ->].
  specialize (Hempty eq_refl). discriminate Hempty.
Qed.

(** X7. What the aggregator does is decided by the per-seed scorer calls
    (with [top_k = 3]) alone, whatever its own [top_k]: it raises
    ValueError exactly when the scorer raises for one of the seeds; it
    raises KeyError exactly when the scorer returns for every seed and no
    seed is in the catalog; it returns a frame exactly when the scorer
    returns for every seed and some seed is in the catalog. *)
Theorem favorites_outcome (fav_ids : list Z) (track_df : list Track) (top_k : Z) :
  let all_return :=
    forall s, In s fav_ids -> exists R, scorer s track_df 3 = Ok R in
  ((exists l, favorites fav_ids track_df top_k = Ok (Frame l))
   <-> all_return /\ exists s, In s fav_ids /\ In s (map track_id track_df))
  /\ (favorites fav_ids track_df top_k = Raise ValueError
      <-> exists s, In s fav_ids /\ scorer s track_df 3 = Raise ValueError)
  /\ (favorites fav_ids track_df top_k = Raise KeyError
      <-> all_return
          /\ forall s, In s fav_ids -> ~ In s (map track_id track_df)).
Proof.
  intro all_return. subst all_return. unfold recommend_from_favorites.
  destruct (collect fav_ids track_df EmptyDataFrame) as [[|a]|e] eqn:Hc;
    cbn [bind frame_drop_duplicates frame_sort_values frame_head].
  - assert (Hall : forall s, In s fav_ids -> exists R, scorer s track_df 3 = Ok R).
    { intros s Hs.
      destruct (collect_absorbs _ _ _ _ _ _ _ Hc Hs) as (R & HR & _). eauto. }
    assert (Hunk : forall s, collect fav_ids track_df EmptyDataFrame = Ok EmptyDataFrame ->
              In s fav_ids -> ~ In s (map track_id track_df))
      by (intro s; apply collect_empty_all_unknown).
    split; [|split].
    + split; [intros [l Hl]; discriminate Hl|].
      intros (_ & s & Hs & Hk). exfalso. exact (Hunk s Hc Hs Hk).
    + split; [discriminate|].
      intros (s & Hs & Hr). destruct (Hall s Hs) as [R HR]. congruence.
    + split; [|reflexivity]. intros _. split; [exact Hall|].
      intros s Hs. exact (Hunk s Hc Hs).
  - assert (Hall : forall s, In s fav_ids -> exists R, scorer s track_df 3 = Ok R).
    { intros s Hs.
      destruct (collect_absorbs _ _ _ _ _ _ _ Hc Hs) as (R & HR & _). eauto. }
    destruct (collect_frame_has_known_seed _ _ _ Hc) as (s0 & Hs0 & Hk0).
    split; [|split].
    + split; [intros _; split; eauto|eauto].
    + split; [discriminate|].
      intros (s & Hs & Hr). destruct (Hall s Hs) as [R HR]. congruence.
    + split; [discriminate|]. intros (_ & Hunk). exfalso. exact (Hunk s0 Hs0 Hk0).
  - destruct (collect_raises _ _ _ _ Hc) as (s0 & Hs0 & Hr0).
    pose proof (scorer_raises_ValueError _ _ _ _ Hr0) as ->.
    split; [|split].
    + split; [intros [l Hl]; discriminate Hl|].
      intros (Hall & _). destruct (Hall s0 Hs0) as [R HR]. congruence.
    + split; [eauto|reflexivity].
    + split; [discriminate|].
      intros (Hall & _). destruct (Hall s0 Hs0) as [R HR]. congruence.
Qed.

(** X8. Asking for fewer rows gives a prefix: for 0 <= k <= k', what the
    aggregator returns for [top_k = k] is the first [k] rows of what it
    returns for [top_k = k']. *)
Theorem favorites_smaller_top_k_is_prefix
    (fav_ids : list Z) (track_df : list Track) (k k' : Z) (out' : DataFrame) :
  0 <= k <= k' ->
  favorites fav_ids track_df k' = Ok out' ->
  favorites fav_ids track_df k = Ok (frame_head k out').
Proof.
  intros Hk H. destruct (favorites_inv _ _ _ _ _ _ H) as (a & Ha & ->).
  unfold recommend_from_favorites. rewrite Ha.
  cbn [bind frame_drop_duplicates frame_sort_values frame_head].
  do 2 f_equal. rewrite !head_nonneg by lia. rewrite firstn_firstn.
  f_equal. lia.
Qed.


(** X10. Every row of an aggregate is a catalog track scored against one
    of the given seeds that is in the catalog, and is another track than
    this seed; so with a single seed (however often it is listed) the seed
    itself is never among the rows. *)
Theorem favorites_rows_provenance
    (fav_ids : list Z) (track_df : list Track) (top_k : Z) (out : DataFrame) :
  favorites fav_ids track_df top_k = Ok out ->
  (forall c, In c (rows out) ->
     exists s seed t,
       In s fav_ids
       /\ find (fun x => track_id x =? s) track_df = Some seed
       /\ In t track_df /\ track_id t <> s
       /\ c = score_row (clean_string (genre_top seed))
                        (clean_string (artist_name seed)) t)
  /\ forall s0, (forall s, In s fav_ids -> s = s0) -> ~ In s0 (ids out).
Proof.
  intro Hrun.
  assert (Hprov : forall c, In c (rows out) ->
     exists s seed t,
       In s fav_ids
       /\ find (fun x => track_id x =? s) track_df = Some seed
       /\ In t track_df /\ track_id t <> s
       /\ c = score_row (clean_string (genre_top seed))
                        (clean_string (artist_name seed)) t).
  { destruct (favorites_inv _ _ _ _ _ _ Hrun) as (a & Ha & ->). simpl.
    intros c Hc. apply head_In, sort_values_In, drop_duplicates_In in Hc.
    destruct (collect_rows _ _ _ _ _ _ _ Ha Hc) as [[]|(s & R & Hs & HR & Hin)].
    destruct (find (fun x => track_id x =? s) track_df) as [seed|] eqn:Hseed.
    - destruct (scorer_known _ _ _ _ _ _ _ Hseed HR) as (l & -> & _ & _ & Hl).
      destruct (Hl c Hin) as (t & Ht & Hne & E).
      exists s, seed, t. auto.
    - unfold recommend_based_on_genre_artist in HR. rewrite Hseed in HR.
      injection HR as <-. contradiction. }
  split; [exact Hprov|].
  intros s0 Hsingle Hin. unfold ids in Hin. apply in_map_iff in Hin.
  destruct Hin as (c & Hid & Hc).
  destruct (Hprov c Hc) as (s & seed & t & Hs & _ & _ & Hne & ->).
  apply Hne. rewrite (Hsingle s Hs). exact Hid.
Qed.

End AggregatorFacts.

(** ** The [/recommend] endpoints *)

Section EndpointFacts.

Import Http.

Variable argsort_desc : list float -> list nat.
Variable permutation : nat -> list nat.
Variable track_df : list Track.
Variable str : raised -> string.

Local Abbreviation api := (recommend_api_recommend argsort_desc permutation track_df).
Local Abbreviation app := (app_recommend argsort_desc permutation track_df str).
Local Abbreviation favorites := (recommend_from_favorites argsort_desc permutation).

(** Past the two checks, both endpoints run the aggregator on the request's
    ids and [top_k], whichever of the two sources is named. *)
Lemma api_checked (req : RecommendationRequest) :
  track_ids req <> [] ->
  source req = "history"%string \/ source req = "favorites"%string ->
  api req
  = match favorites (track_ids req) track_df (top_k req) with
    | Ok recs => of_result (to_records recs)
    | Raise e => Raises (PyError e)
    end.
Proof.
  intros Hids Hsrc. unfold recommend_api_recommend.
  destruct (track_ids req) as [|i l]; [contradiction|].
  destruct Hsrc as [-> | ->]; reflexivity.
Qed.

Lemma api_invalid_source (req : RecommendationRequest) :
  track_ids req <> [] ->
  source req <> "history"%string -> source req <> "favorites"%string ->
  api req = Raises (HTTPException 400 "Invalid source. Use 'history' or 'favorites'.").
Proof.
  intros Hids Hh Hf. unfold recommend_api_recommend.
  destruct (track_ids req) as [|i l]; [contradiction|].
  apply String.eqb_neq in Hh, Hf. now rewrite Hh, Hf.
Qed.

Lemma source_cases (req : RecommendationRequest) :
  (source req = "history"%string \/ source req = "favorites"%string)
  \/ (source req <> "history"%string /\ source req <> "favorites"%string).
Proof.
  destruct (String.eqb_spec (source req) "history");
    destruct (String.eqb_spec (source req) "favorites"); auto.
Qed.

Lemma favorites_to_records (fav_ids : list Z) (k : Z) :
  match favorites fav_ids track_df k with
  | Ok recs => of_result (to_records recs)
  | Raise e => Raises (PyError e)
  end
  = match favorites fav_ids track_df k with
    | Ok recs => Returns (rows recs)
    | Raise e => Raises (PyError e)
    end.
Proof.
  destruct (favorites fav_ids track_df k) as [recs|e] eqn:H; [|reflexivity].
  destruct (favorites_inv _ _ _ _ _ _ H) as (a & _ & ->). reflexivity.
Qed.

(** X11. The endpoint of recommend_api.py raises an [HTTPException] in two
    cases only, both with status 400: for an empty id list, with detail
    "No track IDs provided.", and otherwise for a source that is neither
    "history" nor "favorites" (compared as it is, letter case included),
    with the detail naming the two sources. The empty list is checked
    first. *)
Theorem api_http_exceptions
    (req : RecommendationRequest) (code : Z) (detail : string) :
  api req = Raises (HTTPException code detail)
  <-> code = 400
      /\ ((track_ids req = [] /\ detail = "No track IDs provided."%string)
          \/ (track_ids req <> []
              /\ source req <> "history"%string
              /\ source req <> "favorites"%string
              /\ detail = "Invalid source. Use 'history' or 'favorites'."%string)).
Proof.
  destruct (track_ids req) as [|i l] eqn:Hids.
  - unfold recommend_api_recommend. rewrite Hids. split.
    + intros [= <- <-]. auto.
    + intros (-> & [(_ & ->)|(Hne & _)]); [reflexivity|contradiction].
  - assert (Hne : track_ids req <> []) by (rewrite Hids; discriminate).
    destruct (source_cases req) as [Hsrc|[Hh Hf]].
    + rewrite (api_checked req Hne Hsrc), favorites_to_records. split.
      * destruct (favorites _ _ _); discriminate.
      * intros (_ & [(E & _)|(_ & Hh & Hf & _)]); [discriminate E|].
        destruct Hsrc; contradiction.
    + rewrite (api_invalid_source req Hne Hh Hf). split.
      * intros [= <- <-]. split; [reflexivity|]. right.
        repeat split; auto. discriminate.
      * intros (-> & [(E & _)|(_ & _ & _ & ->)]); [discriminate E|reflexivity].
Qed.

(** X12. The endpoint of app.py turns everything its body raises into an
    [HTTPException] with status 500 whose detail is "Server error: "
    followed by the text of what was raised. What its body raises is what
    the endpoint of recommend_api.py raises for the same request, so the
    two 400 answers of that endpoint are 500 answers here. *)
Theorem app_errors_are_500 (req : RecommendationRequest) (r : raised) :
  app req = Raises r ->
  exists cause,
    api req = Raises cause
    /\ r = HTTPException 500 (String.append "Server error: " (str cause)).
Proof.
  unfold app_recommend.
  change (app_recommend_try argsort_desc permutation track_df req)
    with (api req).
  destruct (api req) as [records|cause]; [discriminate|].
  intros [= <-]. eauto.
Qed.

(** X13. The two endpoints return in the same cases and then return the
    same records: the id list is not empty, the source is "history" or
    "favorites", and the aggregator, run on the ids and [top_k] of the
    request, returns a frame, whose rows are the records. *)
Theorem endpoints_return_alike (req : RecommendationRequest) (records : list Cand) :
  (app req = Returns records <-> api req = Returns records)
  /\ (api req = Returns records
      <-> track_ids req <> []
          /\ (source req = "history"%string \/ source req = "favorites"%string)
          /\ favorites (track_ids req) track_df (top_k req) = Ok (Frame records)).
Proof.
  split.
  - unfold app_recommend.
    change (app_recommend_try argsort_desc permutation track_df req)
      with (api req).
    destruct (api req); split; intro H; try discriminate H; exact H.
  - destruct (track_ids req) as [|i l] eqn:Hids.
    + unfold recommend_api_recommend. rewrite Hids. split; [discriminate|].
      intros (Hne & _). contradiction.
    + assert (Hne : track_ids req <> []) by (rewrite Hids; discriminate).
      rewrite <- Hids.
      destruct (source_cases req) as [Hsrc|[Hh Hf]].
      * rewrite (api_checked req Hne Hsrc), favorites_to_records.
        destruct (favorites (track_ids req) track_df (top_k req)) as [recs|e] eqn:H.
        -- destruct (favorites_inv _ _ _ _ _ _ H) as (a & _ & ->). simpl. split.
           ++ intros [= <-]. auto.
           ++ now intros (_ & _ & [= <-]).
        -- split; [discriminate|]. intros (_ & _ & E). discriminate E.
      * rewrite (api_invalid_source req Hne Hh Hf). split; [discriminate|].
        intros (_ & Hsrc & _). destruct Hsrc; contradiction.
Qed.

(** X14. A well-formed request whose ids are all unknown to the catalog is
    not answered with an empty list: in recommend_api.py the KeyError of
    the aggregator escapes the endpoint, and in app.py it becomes an
    [HTTPException] with status 500. *)
Theorem unknown_ids_fail_the_request (req : RecommendationRequest) :
  track_ids req <> [] ->
  source req = "history"%string \/ source req = "favorites"%string ->
  (forall s, In s (track_ids req) -> ~ In s (map track_id track_df)) ->
  api req = Raises (PyError KeyError)
  /\ app req
     = Raises (HTTPException 500
                 (String.append "Server error: " (str (PyError KeyError)))).
Proof.
  intros Hne Hsrc Hunknown.
  assert (Hapi : api req = Raises (PyError KeyError)).
  { rewrite (api_checked req Hne Hsrc). unfold recommend_from_favorites.
    now rewrite collect_all_unknown. }
  split; [exact Hapi|]. unfold app_recommend.
  change (app_recommend_try argsort_desc permutation track_df req)
    with (api req).
  now rewrite Hapi.
Qed.

End EndpointFacts.

(** ** The further properties at concrete inputs *)

Lemma clean_string_normal_form_witness :
  ascii_cell (Some "  Rock Ballad "%string) = true
  /\ clean_string (Some "  Rock Ballad "%string) = "rock ballad"%string
  /\ ascii_text "rock ballad" = true
  /\ clean_string (Some "rock ballad"%string) = "rock ballad"%string.
Proof.
  split; [reflexivity|]. split; [reflexivity|].
  destruct (clean_string_normal_form (Some "  Rock Ballad "%string) eq_refl)
    as (Hascii & Hfix & _).
  split; [exact Hascii|exact Hfix].
Defined.

Lemma clean_string_ignores_padding_and_case_witness :
  ascii_text "Rock" = true /\ ascii_text "rOCK" = true
  /\ all_space "  " = true /\ all_space " " = true
  /\ Str.lower "Rock" = Str.lower "rOCK"
  /\ clean_string (Some ("  " ++ "Rock" ++ " ")%string) = clean_string (Some "rOCK"%string)
  /\ clean_string (Some "rOCK"%string) = "rock"%string.
Proof.
  split; [reflexivity|]. split; [reflexivity|].
  split; [reflexivity|]. split; [reflexivity|]. split; [reflexivity|].
  split; [|reflexivity].
  exact (clean_string_ignores_padding_and_case "  " "Rock" " " "rOCK"
           eq_refl eq_refl eq_refl eq_refl eq_refl).
Defined.

Lemma blank_genres_match_witness :
  let seed := mkTrack 1 None None (Some "A"%string) in
  let t := mkTrack 2 None (Some "  "%string) (Some "b"%string) in
  blank (genre_top seed) = true /\ blank (genre_top t) = true
  /\ clean_string (artist_name t) <> "a"%string
  /\ (similarity (score_row (clean_string (genre_top seed)) "a" t) = 0.7%float
      \/ similarity (score_row (clean_string (genre_top seed)) "a" t) = 1.0%float).
Proof.
  intros seed t. split; [reflexivity|]. split; [reflexivity|].
  split; [discriminate|].
  exact (proj2 (blank_genres_match seed t "a" eq_refl eq_refl)).
Defined.

Lemma scorer_returns_iff_witness :
  let seed := mkTrack 2 (Some "two"%string) (Some "Jazz"%string) (Some "B"%string) in
  find (fun t => track_id t =? 2) seven_tracks = Some seed
  /\ length (candidates_for 2 seed seven_tracks) = 6%nat
  /\ length (other_genre seed (candidates_for 2 seed seven_tracks)) = 5%nat
  /\ exists l,
       recommend_based_on_genre_artist argsort_stable shuffle_rev 2 seven_tracks 3
       = Ok (Frame l).
Proof.
  intro seed. split; [reflexivity|]. split; [reflexivity|]. split; [reflexivity|].
  destruct (scorer_returns_iff argsort_stable shuffle_rev 2 seven_tracks 3 seed
              eq_refl) as (Hiff & _).
  apply Hiff. vm_compute. lia.
Defined.

Lemma seven_tracks_unique_ids : NoDup (map track_id seven_tracks).
Proof.
  simpl. repeat constructor; simpl; intuition discriminate.
Qed.


Lemma scorer_top_is_best_witness :
  let seed := mkTrack 1 (Some "one"%string) (Some "Rock"%string) (Some "A"%string) in
  exists out,
    recommend_based_on_genre_artist argsort_stable shuffle_rev 1 seven_tracks 3 = Ok out
    /\ map c_track_id (firstn 3 (rows out)) = [3; 5; 2]
    /\ forall a c,
         In a (firstn 3 (rows out)) ->
         In c (candidates_for 1 seed seven_tracks) ->
         ~ In (c_track_id c) (map c_track_id (firstn 3 (rows out))) ->
         ge_sim (similarity a) (similarity c).
Proof.
  intro seed.
  destruct (recommend_based_on_genre_artist
              argsort_stable shuffle_rev 1 seven_tracks 3) as [out|e] eqn:Hrun;
    [|vm_compute in Hrun; discriminate Hrun].
  exists out. split; [reflexivity|].
  split; [vm_compute in Hrun; injection Hrun as <-; reflexivity|].
  exact (scorer_top_is_best argsort_stable shuffle_rev argsort_stable_contract
           1 seven_tracks 3 seed out seven_tracks_unique_ids eq_refl
           ltac:(lia) Hrun).
Defined.

Lemma favorites_smaller_top_k_is_prefix_witness :
  0 <= 2 <= 4
  /\ exists out',
       recommend_from_favorites argsort_stable shuffle_rev [1; 2] seven_tracks 4 = Ok out'
       /\ ids out' = [3; 5; 2; 7]
       /\ recommend_from_favorites argsort_stable shuffle_rev [1; 2] seven_tracks 2
          = Ok (frame_head 2 out')
       /\ ids (frame_head 2 out') = [3; 5].
Proof.
  split; [lia|].
  destruct (recommend_from_favorites argsort_stable shuffle_rev
              [1; 2] seven_tracks 4) as [out'|e] eqn:Hrun;
    [|vm_compute in Hrun; discriminate Hrun].
  exists out'. split; [reflexivity|].
  pose proof (favorites_smaller_top_k_is_prefix argsort_stable shuffle_rev
                [1; 2] seven_tracks 2 4 out' ltac:(lia) Hrun) as Hprefix.
  split; [|split; [exact Hprefix|]];
    vm_compute in Hrun; injection Hrun as <-; reflexivity.
Defined.


Lemma favorites_rows_provenance_witness :
  exists out,
    recommend_from_favorites argsort_stable shuffle_rev [1; 1] seven_tracks 40 = Ok out
    /\ ids out = [3; 5; 2; 7; 6; 4]
    /\ ~ In 1 (ids out).
Proof.
  destruct (recommend_from_favorites argsort_stable shuffle_rev
              [1; 1] seven_tracks 40) as [out|e] eqn:Hrun;
    [|vm_compute in Hrun; discriminate Hrun].
  exists out. split; [reflexivity|].
  split; [vm_compute in Hrun; injection Hrun as <-; reflexivity|].
  apply (proj2 (favorites_rows_provenance argsort_stable shuffle_rev
                  [1; 1] seven_tracks 40 out Hrun)).
  intros s [<-|[<-|[]]]; reflexivity.
Defined.

Lemma app_errors_are_500_witness :
  let req := Http.mkRequest [] "favorites" 10 in
  let str := fun r : Http.raised =>
    match r with
    | Http.HTTPException _ detail => detail
    | Http.PyError _ => "error"%string
    end in
  Http.app_recommend argsort_stable shuffle_rev seven_tracks str req
  = Http.Raises (Http.HTTPException 500 "Server error: No track IDs provided.")
  /\ exists cause,
       Http.recommend_api_recommend argsort_stable shuffle_rev seven_tracks req
       = Http.Raises cause
       /\ Http.HTTPException 500 "Server error: No track IDs provided."
          = Http.HTTPException 500 (String.append "Server error: " (str cause)).
Proof.
  intros req str. split; [reflexivity|].
  exact (app_errors_are_500 argsort_stable shuffle_rev seven_tracks str req
           (Http.HTTPException 500 "Server error: No track IDs provided.")
           eq_refl).
Defined.

Lemma unknown_ids_fail_the_request_witness :
  let req := Http.mkRequest [999] "favorites" 10 in
  let str := fun _ : Http.raised => "'similarity'"%string in
  Http.track_ids req <> []
  /\ (forall s, In s (Http.track_ids req) -> ~ In s (map track_id scenario_catalog))
  /\ Http.recommend_api_recommend argsort_stable shuffle_rev scenario_catalog req
     = Http.Raises (Http.PyError KeyError)
  /\ Http.app_recommend argsort_stable shuffle_rev scenario_catalog str req
     = Http.Raises (Http.HTTPException 500 "Server error: 'similarity'").
Proof.
  intros req str.
  assert (Hne : Http.track_ids req <> []) by discriminate.
  assert (Hunknown : forall s, In s (Http.track_ids req) ->
                       ~ In s (map track_id scenario_catalog)).
  { intros s [<-|[]]. absent_id. }
  split; [exact Hne|]. split; [exact Hunknown|].
  exact (unknown_ids_fail_the_request argsort_stable shuffle_rev scenario_catalog
           str req Hne (or_intror eq_refl) Hunknown).
Defined.

(** ** Small catalogs and small answers *)

Lemma take_nil {A : Type} (positions : list nat) : take (@nil A) positions = [].
Proof.
  induction positions as [|i r IH]; simpl; [reflexivity|].
  now destruct i.
Qed.

Lemma head_nil {A : Type} (n : Z) : head n (@nil A) = [].
Proof. destruct (head_firstn n (@nil A)) as [m ->]. apply firstn_nil. Qed.

Lemma drop_duplicates_from_length (seen : list Z) (l : list Cand) :
  (length (drop_duplicates_from seen l) <= length l)%nat.
Proof.
  revert seen. induction l as [|c l IH]; intro seen; simpl; [lia|].
  destruct (existsb _ seen); simpl.
  - specialize (IH seen). lia.
  - specialize (IH (c_track_id c :: seen)). lia.
Qed.

Lemma head_length_le {A : Type} (n : Z) (l : list A) :
  (length (head n l) <= length l)%nat.
Proof. destruct (head_firstn n l) as [m ->]. rewrite length_firstn. lia. Qed.

Section SizeFacts.

Variable argsort_desc : list float -> list nat.
Variable permutation : nat -> list nat.

Local Abbreviation scorer := (recommend_based_on_genre_artist argsort_desc permutation).
Local Abbreviation favorites := (recommend_from_favorites argsort_desc permutation).
Local Abbreviation collect := (accumulate argsort_desc permutation).

(** X15. When every row of the catalog carries the seed's id, there is no
    candidate: the scorer returns a frame without rows (not the column-less
    frame of an unknown seed), and the aggregator called with this seed
    returns a frame without rows and raises nothing. *)
Theorem seed_alone_in_catalog
    (tid : Z) (track_df : list Track) (top_k top_k' : Z) :
  In tid (map track_id track_df) ->
  (forall t, In t track_df -> track_id t = tid) ->
  scorer tid track_df top_k = Ok (Frame [])
  /\ favorites [tid] track_df top_k' = Ok (Frame []).
Proof.
  intros Hin Hall.
  assert (Hnone : filter (fun t => negb (track_id t =? tid)) track_df = []).
  { clear Hin. induction track_df as [|t l IH]; simpl; [reflexivity|].
    rewrite (Hall t (or_introl eq_refl)), Z.eqb_refl. simpl.
    apply IH. intros x Hx. apply Hall. now right. }
  assert (Hscorer : forall k, scorer tid track_df k = Ok (Frame [])).
  { intro k. destruct (find_track_known _ _ Hin) as [seed Hseed].
    unfold recommend_based_on_genre_artist. rewrite Hseed. cbv zeta.
    rewrite Hnone. simpl. unfold sort_values, sample. simpl.
    rewrite ?take_nil, ?head_nil. unfold drop_duplicates. simpl.
    now rewrite ?head_nil. }
  split; [apply Hscorer|].
  unfold recommend_from_favorites. simpl accumulate.
  rewrite Hscorer. simpl. unfold sort_values, drop_duplicates. simpl.
  now rewrite ?take_nil, ?head_nil.
Qed.

Lemma scorer_at_most_six (tid : Z) (track_df : list Track) (R : DataFrame) :
  scorer tid track_df 3 = Ok R -> (length (rows R) <= 6)%nat.
Proof.
  intro Hrun.
  destruct (find (fun t => track_id t =? tid) track_df) as [seed|] eqn:Hseed.
  - destruct (scorer_known _ _ _ _ _ _ _ Hseed Hrun) as (l & -> & _ & Hlen & _).
    simpl. lia.
  - unfold recommend_based_on_genre_artist in Hrun. rewrite Hseed in Hrun.
    injection Hrun as <-. simpl. lia.
Qed.

Lemma collect_length (fav_ids : list Z) (track_df : list Track) (X A : DataFrame) :
  collect fav_ids track_df X = Ok A ->
  (length (rows A) <= length (rows X) + 6 * length fav_ids)%nat.
Proof.
  revert X. induction fav_ids as [|tid rest IH]; intros X H; simpl in H.
  - injection H as <-. lia.
  - destruct (scorer tid track_df 3) as [recs|e] eqn:E; cbn [bind] in H;
      [|discriminate].
    apply IH in H. rewrite rows_pd_concat, length_app in H.
    pose proof (scorer_at_most_six _ _ _ E). simpl length. lia.
Qed.

Hypothesis sort_ok : argsort_contract argsort_desc.

(** X16. However large [top_k] is, the aggregator returns at most six rows
    per seed id it is given: each seed is scored with [top_k = 3], which
    yields at most 3 + 3 rows. *)
Theorem favorites_at_most_six_per_seed
    (fav_ids : list Z) (track_df : list Track) (top_k : Z) (out : DataFrame) :
  favorites fav_ids track_df top_k = Ok out ->
  (length (rows out) <= 6 * length fav_ids)%nat.
Proof.
  intro H. destruct (favorites_inv _ _ _ _ _ _ H) as (a & Ha & ->). simpl.
  pose proof (collect_length _ _ _ _ Ha) as Hlen. simpl in Hlen.
  pose proof (head_length_le top_k (sort_values argsort_desc (drop_duplicates a))) as H1.
  pose proof (Permutation_length
                (sort_values_Permutation argsort_desc sort_ok (drop_duplicates a))) as H2.
  pose proof (drop_duplicates_from_length [] a) as H3.
  unfold drop_duplicates in *. lia.
Qed.

End SizeFacts.

Lemma seed_alone_in_catalog_witness :
  let track_df :=
    [ mkTrack 1 (Some "one"%string) (Some "Rock"%string) (Some "A"%string);
      mkTrack 1 (Some "one again"%string) (Some "Jazz"%string) None ] in
  In 1 (map track_id track_df)
  /\ (forall t, In t track_df -> track_id t = 1)
  /\ recommend_based_on_genre_artist argsort_stable shuffle_rev 1 track_df 5
     = Ok (Frame [])
  /\ recommend_from_favorites argsort_stable shuffle_rev [1] track_df 10
     = Ok (Frame []).
Proof.
  intro track_df.
  assert (Hin : In 1 (map track_id track_df)) by (now left).
  assert (Hall : forall t, In t track_df -> track_id t = 1).
  { intros t [<-|[<-|[]]]; reflexivity. }
  split; [exact Hin|]. split; [exact Hall|].
  exact (seed_alone_in_catalog argsort_stable shuffle_rev 1 track_df 5 10 Hin Hall).
Defined.

Lemma favorites_at_most_six_per_seed_witness :
  argsort_contract argsort_stable
  /\ exists out,
       recommend_from_favorites argsort_stable shuffle_rev [1] seven_tracks 10 = Ok out
       /\ ids out = [3; 5; 2; 7; 6; 4]
       /\ (length (rows out) <= 6 * length [1])%nat.
Proof.
  split; [exact argsort_stable_contract|].
  destruct (recommend_from_favorites argsort_stable shuffle_rev
              [1] seven_tracks 10) as [out|e] eqn:Hrun;
    [|vm_compute in Hrun; discriminate Hrun].
  exists out. split; [reflexivity|].
  split; [vm_compute in Hrun; injection Hrun as <-; reflexivity|].
  exact (favorites_at_most_six_per_seed argsort_stable shuffle_rev
           argsort_stable_contract [1] seven_tracks 10 out Hrun).
Defined.
